(** * unica_mlsec_labs: the notebooks' own steps, embedded and verified

    The repository is a set of course notebooks (lab 04 on gradient
    obfuscation, lab 05 on poisoning, lab 06 on explainability).  What the
    notebooks themselves do is data preparation, environment bootstrap,
    weight caching and metric evaluation around calls into secml, foolbox
    and robustbench.  This development embeds those steps:

    - arrays are lists of rows of exact rationals ([Q]); the notebooks run
      on floating point numbers, whose rounding is not modelled;
    - datasets are objects in a store, because the notebooks mutate them
      through their variables;
    - cells that touch the interpreter's environment run in a state and
      exception monad over a [world] (working directory, file tree,
      importable packages, network);
    - library routines whose result the notebooks only pass along
      (sampling, splitting, gradients) are parameters, grouped in records.

    Part I holds the definitions, Part II the lemmas and theorems. *)

From Stdlib Require Import QArith Qabs Lqa Lia ZArith List.
From stdpp Require Import base option list gmap strings sorting.

Local Open Scope Q_scope.

(* ===================================================================== *)
(** * Part I: definitions *)
(* ===================================================================== *)

(** ** Python exceptions *)

Inductive exn : Type :=
  | ImportError
  | ModuleNotFoundError
  | FileNotFoundError
  | FileExistsError
  | NotADirectoryError
  | ConnectionError
  | ValueError
  | AssertionError
  | AttributeError
  | OtherError (name : string).

(** [isinstance(e, ImportError)]: [ModuleNotFoundError] derives from
    [ImportError]. *)
Definition is_ImportError (e : exn) : bool :=
  match e with
  | ImportError | ModuleNotFoundError => true
  | _ => false
  end.

(** A call either raises or returns. *)
Inductive result (A : Type) : Type :=
  | Raise (e : exn)
  | Return (a : A).
Arguments Raise {A} e.
Arguments Return {A} a.

(** ** Arrays over exact rationals *)

Abbreviation vec := (list Q).
Abbreviation matrix := (list (list Q)).

Definition qmin (a b : Q) : Q := if Qle_bool a b then a else b.
Definition qmax (a b : Q) : Q := if Qle_bool a b then b else a.

(** [numpy.clip] on one entry. *)
Definition clip (lo hi v : Q) : Q := qmax lo (qmin hi v).

(** [lo <= v <= hi], as a boolean. *)
Definition within (lo hi v : Q) : bool := Qle_bool lo v && Qle_bool v hi.

(** Every feature of the point [x] lies in [[lo, hi]]. *)
Definition in_box (lo hi : Q) (x : vec) : bool := forallb (within lo hi) x.

(** Every entry of the matrix lies in [[lo, hi]]. *)
Definition all_within (lo hi : Q) (m : matrix) : bool := forallb (in_box lo hi) m.

(** A two-dimensional array with [n] columns. *)
Definition rect (n : nat) (m : matrix) : Prop := Forall (fun r => length r = n) m.

(** [X.min()] and [X.max()] over all entries; a zero-size array has no
    minimum (numpy raises [ValueError]). *)
Definition carray_min (m : matrix) : result Q :=
  match concat m with
  | [] => Raise ValueError
  | v :: vs => Return (foldl qmin v vs)
  end.

Definition carray_max (m : matrix) : result Q :=
  match concat m with
  | [] => Raise ValueError
  | v :: vs => Return (foldl qmax v vs)
  end.

(** [X.min(axis=0)] and [X.max(axis=0)]: one value per column. *)
Definition col_min (m : matrix) : result vec :=
  match m with
  | [] => Raise ValueError
  | r :: rs => Return (foldl (zip_with qmin) r rs)
  end.

Definition col_max (m : matrix) : result vec :=
  match m with
  | [] => Raise ValueError
  | r :: rs => Return (foldl (zip_with qmax) r rs)
  end.

(** [X /= k], entry by entry. *)
Definition carray_div (k : Q) (m : matrix) : matrix := map (map (fun v => v / k)) m.

(** ** Datasets *)

(** [CDataset]: the samples [X], one row each, and the labels [Y]. *)
Record CDataset : Type := mkDataset { X : matrix; Y : list Z }.

Definition num_samples (d : CDataset) : nat := length (X d).

(** [ds[:n, :]]: a new dataset with the first [n] samples. *)
Definition slice_rows (n : nat) (d : CDataset) : CDataset :=
  {| X := take n (X d); Y := take n (Y d) |}.

(** Datasets are objects: a notebook variable holds a reference into the
    store, and two variables may hold the same one. *)
Abbreviation ref := positive.
Abbreviation store := (gmap positive CDataset).

(** [v.X /= k]: the array of the object behind [v] is divided in place. *)
Definition idiv_X (k : Q) (v : ref) (h : store) : result store :=
  match h !! v with
  | None => Raise AttributeError
  | Some d => Return (<[v := {| X := carray_div k (X d); Y := Y d |}]> h)
  end.

(** [v.X = m]: the setter of [CDataset.X] refuses an array whose number of
    rows differs from the number of labels. *)
Definition set_X (m : matrix) (v : ref) (h : store) : result store :=
  match h !! v with
  | None => Raise AttributeError
  | Some d =>
      if Nat.eqb (length m) (length (Y d))
      then Return (<[v := {| X := m; Y := Y d |}]> h)
      else Raise ValueError
  end.

(** ** Min-max normaliser *)

(** Modelled from the spec: min-max scaling, which the notebooks take from
    the toolkit ([CNormalizerMinMax] with its feature range (0, 1)) and
    which is not among the sources.  A fitted normaliser remembers the
    column minima and maxima. *)
Record CNormalizerMinMax : Type := mkNmz { nmz_min : vec; nmz_max : vec }.

(** Modelled from the spec: min-max scaling of one entry,
    [(v - min) * m] with [m = 1 / (max - min)], and [m = 1] for a constant
    column. *)
Definition scale (mn mx v : Q) : Q :=
  (v - mn) * (if Qeq_bool (mx - mn) 0 then 1 else / (mx - mn)).

Fixpoint scale_row (mns mxs r : vec) : vec :=
  match mns, mxs, r with
  | mn :: mns', mx :: mxs', v :: r' => scale mn mx v :: scale_row mns' mxs' r'
  | _, _, _ => []
  end.

Definition nmz_fit (m : matrix) : result CNormalizerMinMax :=
  match col_min m, col_max m with
  | Return mns, Return mxs => Return {| nmz_min := mns; nmz_max := mxs |}
  | Raise e, _ => Raise e
  | _, Raise e => Raise e
  end.

(** [transform] raises when the array has not the fitted number of
    features. *)
Definition nmz_transform (n : CNormalizerMinMax) (m : matrix) : result matrix :=
  if forallb (fun r => Nat.eqb (length r) (length (nmz_min n))) m
  then Return (map (scale_row (nmz_min n) (nmz_max n)) m)
  else Raise ValueError.

Definition nmz_fit_transform (m : matrix) : result (CNormalizerMinMax * matrix) :=
  match nmz_fit m with
  | Raise e => Raise e
  | Return n =>
      match nmz_transform n m with
      | Raise e => Raise e
      | Return m' => Return (n, m')
      end
  end.

(** ** The interpreter's environment *)

Abbreviation path := (list string).

(** A file is identified by where its bytes come from (a Google Drive
    identifier, a file of the cloned repository). *)
Inductive node : Type :=
  | Dir
  | File (origin : string).

(** [site_packages] maps an installed package to what importing it does:
    [None] when the import succeeds, [Some e] when the package's own code
    raises [e].  A package that is not installed is absent from the map. *)
Record world : Type := mkWorld {
  cwd : path;
  fs : gmap (list string) node;
  site_packages : gmap string (option exn);
  online : bool
}.

(** The root directory always exists. *)
Definition node_at (w : world) (p : path) : option node :=
  match p with
  | [] => Some Dir
  | _ => fs w !! p
  end.

Definition parent (p : path) : path := take (length p - 1) p.

(** Cells are state and exception computations: what a cell did before it
    raised stays done. *)
Definition M (A : Type) : Type := world -> result A * world.

Definition ret {A : Type} (a : A) : M A := fun w => (Return a, w).

Definition bind {A B : Type} (m : M A) (k : A -> M B) : M B :=
  fun w =>
    match m w with
    | (Raise e, w') => (Raise e, w')
    | (Return a, w') => k a w'
    end.

(** [try: body / except <class>: handler] *)
Definition try_except (body : M unit) (catches : exn -> bool) (handler : M unit) : M unit :=
  fun w =>
    match body w with
    | (Raise e, w') => if catches e then handler w' else (Raise e, w')
    | (Return a, w') => (Return a, w')
    end.

Declare Scope cell_scope.
Delimit Scope cell_scope with cell.
Notation "'let!' x ':=' m 'in' k" := (bind m (fun x => k))
  (at level 10, x name, m at level 100, k at level 200) : cell_scope.
Notation "m >> k" := (bind m (fun _ => k))
  (at level 100, k at level 200, right associativity) : cell_scope.

(** [import pkg] for a third-party package. *)
Definition import_ (pkg : string) : M unit :=
  fun w =>
    match site_packages w !! pkg with
    | None => (Raise ModuleNotFoundError, w)
    | Some (Some e) => (Raise e, w)
    | Some None => (Return tt, w)
    end.

(** [from dir.module import name] for a module of the working directory. *)
Definition import_local (dir module : string) : M unit :=
  fun w =>
    match fs w !! (cwd w ++ [dir; module]) with
    | Some (File _) => (Return tt, w)
    | _ => (Raise ModuleNotFoundError, w)
    end.

(** [%pip install pkg]: a shell magic, which reports failure on the output
    and never raises. *)
Definition pip_install (pkg : string) : M unit :=
  fun w =>
    (Return tt,
     if online w then
       match site_packages w !! pkg with
       | Some _ => w
       | None => mkWorld (cwd w) (fs w) (<[pkg := None]> (site_packages w)) (online w)
       end
     else w).

(** [os.path.exists(p)] *)
Definition os_path_exists (p : path) : M bool :=
  fun w => (Return (bool_decide (is_Some (node_at w (cwd w ++ p)))), w).

(** [os.mkdir(p)] *)
Definition os_mkdir (p : path) : M unit :=
  fun w =>
    let target := cwd w ++ p in
    match node_at w target with
    | Some _ => (Raise FileExistsError, w)
    | None =>
        match node_at w (parent target) with
        | Some Dir => (Return tt, mkWorld (cwd w) (<[target := Dir]> (fs w)) (site_packages w) (online w))
        | Some (File _) => (Raise NotADirectoryError, w)
        | None => (Raise FileNotFoundError, w)
        end
    end.

(** [os.chdir(p)] *)
Definition os_chdir (p : path) : M unit :=
  fun w =>
    let target := cwd w ++ p in
    match node_at w target with
    | Some Dir => (Return tt, mkWorld target (fs w) (site_packages w) (online w))
    | Some (File _) => (Raise NotADirectoryError, w)
    | None => (Raise FileNotFoundError, w)
    end.

(** Write the tree [repo] below the directory [target]. *)
Definition checkout (target : path) (repo : list (path * node)) (m : gmap (list string) node)
  : gmap (list string) node :=
  foldr (fun e acc => <[target ++ e.1 := e.2]> acc) (<[target := Dir]> m) repo.
Arguments checkout : simpl never.

(** [!git clone url]: creates the directory [name] in the working directory
    and checks the repository out below it.  A shell command: when it fails
    (no network, destination taken) nothing is raised and nothing is
    written.  (git also accepts an existing empty destination; the notebook
    calls it only when the destination is absent.) *)
Definition git_clone (name : string) (repo : list (path * node)) : M unit :=
  fun w =>
    let target := cwd w ++ [name] in
    (Return tt,
     if online w then
       match node_at w target with
       | None => mkWorld (cwd w) (checkout target repo (fs w)) (site_packages w) (online w)
       | Some _ => w
       end
     else w).

(** [robustbench.utils.download_gdrive(gdrive_id, fname_save)]: fetches the
    file, then opens [fname_save] for writing. *)
Definition download_gdrive (gdrive_id : string) (fname_save : path) : M unit :=
  fun w =>
    let target := cwd w ++ fname_save in
    if negb (online w) then (Raise ConnectionError, w)
    else
      match node_at w (parent target) with
      | Some Dir =>
          match node_at w target with
          | Some Dir => (Raise (OtherError "IsADirectoryError"), w)
          | _ => (Return tt, mkWorld (cwd w) (<[target := File gdrive_id]> (fs w))
                                     (site_packages w) (online w))
          end
      | Some (File _) => (Raise NotADirectoryError, w)
      | None => (Raise FileNotFoundError, w)
      end.

(** What the notebooks reference of the companion repository (this
    repository itself): the model and attack modules they import and the
    notebooks listed in the README. *)
Definition companion_repo : list (path * node) :=
  [ (["models"], Dir);
    (["models"; "kwta.py"], File "models/kwta.py");
    (["models"; "distillation.py"], File "models/distillation.py");
    (["attacks"], Dir);
    (["attacks"; "averaged_pgd.py"], File "attacks/averaged_pgd.py");
    (["attacks"; "logits_pgd.py"], File "attacks/logits_pgd.py");
    (["assets"], Dir);
    (["README.md"], File "README.md");
    (["04_gradient_obfuscation_and_adaptive_attacks.ipynb"],
       File "04_gradient_obfuscation_and_adaptive_attacks.ipynb");
    (["05_poisoning_attacks.ipynb"], File "05_poisoning_attacks.ipynb");
    (["06_explainability.ipynb"], File "06_explainability.ipynb") ].

(** [try: import pkg / except ImportError: %pip install target] *)
Definition import_or_install (pkg target : string) : M unit :=
  try_except (import_ pkg) is_ImportError (pip_install target).

(** [if not os.path.exists(p): body] *)
Definition unless_exists (p : path) (body : M unit) : M unit :=
  (let! there := os_path_exists p in
   if negb there then body else ret tt)%cell.

(** [if not os.path.exists(file): download_gdrive(model_id, file)] *)
Definition cache_weights (model_id : string) (file : path) : M unit :=
  unless_exists file (download_gdrive model_id file).

(** ** Lab 04, gradient obfuscation and adaptive attacks *)

Module Nb04.

(** First code cell: imports with their install fallback, then the clone
    of the companion repository. *)
Definition clone_step : M unit :=
  unless_exists ["models"]
    (unless_exists ["unica_mlsec_labs"] (git_clone "unica_mlsec_labs" companion_repo) >>
     os_chdir ["unica_mlsec_labs"])%cell.

Definition bootstrap : M unit :=
  (import_or_install "secml" "secml" >>
   import_or_install "foolbox" "foolbox" >>
   import_or_install "robustbench" "robustbench" >>
   clone_step)%cell.

(** The k-WTA cell, up to the cached weights: the imports ([os] belongs
    to the interpreter and cannot fail), the [pretrained] directory, the
    download.  What follows in the cell (building the network,
    [torch.load]) reads the file and writes nothing. *)
Definition kwta_file : path := ["pretrained"; "kwta_spresnet18_0.1_cifar_adv.pth"].

Definition kwta_weights : M unit :=
  (import_ "torch" >>
   import_ "robustbench" >>
   import_ "secml" >>
   import_ "secml" >>
   import_local "models" "kwta.py" >>
   unless_exists ["pretrained"] (os_mkdir ["pretrained"]) >>
   cache_weights "1Af_owmMvg1LxjITLE1gFUmPx5idogeTP" kwta_file)%cell.

(** The distilled network's cell, up to the cached weights. *)
Definition distilled_weights : M unit :=
  (import_local "models" "distillation.py" >>
   import_ "torch" >>
   import_ "robustbench" >>
   import_ "secml" >>
   import_ "secml" >>
   import_ "torch" >>
   cache_weights "1s7Kfa2Bs5nY2zLd6dVAxUqNbCNQhPYxs" ["pretrained"; "mnist_distilled.pt"])%cell.

(** The teacher network's cell. *)
Definition teacher_weights : M unit :=
  cache_weights "1qmjepc4k_o4BIqCvUJgwg-K19CaovOrQ" ["pretrained"; "mnist_teacher.pt"].

End Nb04.

(** ** Sequencing calls that may raise *)

Definition rbind {A B : Type} (r : result A) (k : A -> result B) : result B :=
  match r with
  | Raise e => Raise e
  | Return a => k a
  end.

Declare Scope result_scope.
Delimit Scope result_scope with result.
Notation "'let?' x ':=' r 'in' k" := (rbind r (fun x => k))
  (at level 10, x name, r at level 100, k at level 200) : result_scope.
Notation "'let?' ' p ':=' r 'in' k" := (rbind r (fun x => match x with p => k end))
  (at level 10, p pattern, r at level 100, k at level 200) : result_scope.

(** Reading a variable that holds no dataset (a placeholder left in the
    notebook, say) fails on the attribute access. *)
Definition deref (v : ref) (h : store) : result CDataset :=
  match h !! v with
  | None => Raise AttributeError
  | Some d => Return d
  end.

(** A new object; no live variable refers to it yet. *)
Definition alloc (d : CDataset) (h : store) : ref * store :=
  let v := fresh (dom h) in (v, <[v := d]> h).

(** [v[:n, :]] as a new object. *)
Definition slice_obj (n : nat) (v : ref) (h : store) : result (ref * store) :=
  (let? d := deref v h in Return (alloc (slice_rows n d) h))%result.

(** [v.X = nmz.fit_transform(v.X)] with a fresh normaliser. *)
Definition fit_transform_X (v : ref) (h : store) : result (CNormalizerMinMax * store) :=
  (let? d := deref v h in
   let? ' (n, m) := nmz_fit_transform (X d) in
   let? h1 := set_X m v h in
   Return (n, h1))%result.

(** [v.X = nmz.transform(v.X)] with the fitted normaliser [n]. *)
Definition transform_X (n : CNormalizerMinMax) (v : ref) (h : store) : result store :=
  (let? d := deref v h in
   let? m := nmz_transform n (X d) in
   set_X m v h)%result.

(** ** Data loading of labs 04 and 06 *)

(** Lab 04, for CIFAR10 and again for MNIST: [ts = ts[:100, :]] and then
    [ts.X /= 255], on the test set [loaded] that the library's loader
    returned. *)
Definition Nb04_load (loaded : ref) (h : store) : result (ref * store) :=
  (let? ' (ts, h1) := slice_obj 100 loaded h in
   let? h2 := idiv_X 255 ts h1 in
   Return (ts, h2))%result.

(** Lab 06, both for the ten-digit and for the two-digit set:
    [tr.X /= 255] and then [ts.X /= 255], on what the loader returned. *)
Definition Nb06_load (tr ts : ref) (h : store) : result store :=
  (let? h1 := idiv_X 255 tr h in
   idiv_X 255 ts h1)%result.

(** ** Lab 05, poisoning attacks *)

(** The sampling routines of the libraries behind [CDLRandomBlobs] and
    [CTrainTestSplit].  Each draws from a generator state and returns the
    state it leaves behind. *)
Record sampling : Type := mkSampling {
  rng : Type;
  (* numpy.random.RandomState(seed) *)
  seeded : Z -> rng;
  (* sklearn.datasets.make_blobs(n_samples, n_features, centers, cluster_std) *)
  make_blobs : nat -> nat -> list (list Z) -> Q -> rng -> CDataset * rng;
  (* one shuffled train/test split of the given sizes *)
  shuffle_split : nat -> nat -> CDataset -> rng -> result (CDataset * CDataset) * rng
}.

(** The libraries' [random_state] convention: an integer seeds a generator
    of the call's own, [None] draws from the process-wide generator and
    advances it. *)
Definition with_random_state {L : sampling} {A : Type}
    (random_state : option Z) (draw : rng L -> A * rng L) (global : rng L) : A * rng L :=
  match random_state with
  | Some seed => ((draw (seeded L seed)).1, global)
  | None => draw global
  end.

Module Nb05.

(** The bootstrap cell: one [try] over both imports. *)
Definition bootstrap : M unit :=
  (pip_install "secml" >>
   try_except (import_ "secml" >> import_ "foolbox") is_ImportError
              (pip_install "secml" >> pip_install "foolbox"))%cell.

Definition random_state : Z := 999%Z.
Definition n_features : nat := 2.
Definition n_samples : nat := 1000.
Definition centers : list (list Z) := [[-1; -1]; [1; 1]]%Z.
Definition cluster_std : Q := 9 # 10.
Definition n_tr : nat := 100.
Definition n_val : nat := 100.
Definition n_ts : nat := 100.

(** The variables the data cell leaves behind. *)
Record prepared : Type := mkPrepared {
  tr : ref; val : ref; ts : ref; nmz : CNormalizerMinMax
}.

(** [tr.X = nmz.fit_transform(tr.X)], [val.X = nmz.transform(val.X)],
    [ts.X = nmz.transform(ts.X)]. *)
Definition normalize (tr val ts : ref) (h : store) : result (CNormalizerMinMax * store) :=
  (let? ' (n, h1) := fit_transform_X tr h in
   let? h2 := transform_X n val h1 in
   let? h3 := transform_X n ts h2 in
   Return (n, h3))%result.

(** The data cell: blobs, two splits, normalisation.  The second split is
    taken from [dataset], as the notebook has it. *)
Definition prepare_data (L : sampling) (h : store) (global : rng L)
  : result (prepared * store) * rng L :=
  let (dataset, g1) :=
    with_random_state (Some random_state)
      (make_blobs L n_samples n_features centers cluster_std) global in
  let (split1, g2) :=
    with_random_state (Some random_state)
      (shuffle_split L (n_tr + n_val) n_ts dataset) g1 in
  let (split2, g3) :=
    with_random_state (Some random_state)
      (shuffle_split L n_tr n_val dataset) g2 in
  ((let? ' (tr_val, d_ts) := split1 in
    let? ' (d_tr, d_val) := split2 in
    let (v_tr, h1) := alloc d_tr h in
    let (v_val, h2) := alloc d_val h1 in
    let (v_ts, h3) := alloc d_ts h2 in
    let? ' (n, h4) := normalize v_tr v_val v_ts h3 in
    Return (mkPrepared v_tr v_val v_ts n, h4))%result,
   g3).

(** [CConstraintBox(lb, ub)] *)
Record CConstraintBox : Type := mkBox { lb : Q; ub : Q }.

(** The constraint is satisfied where every feature lies in [[lb, ub]]. *)
Definition box_contains (b : CConstraintBox) (x : vec) : bool := in_box (lb b) (ub b) x.

(** [lb, ub = val.X.min(), val.X.max()] and, two cells on,
    [box = CConstraintBox(lb=lb, ub=ub)]. *)
Definition attack_space (val : ref) (h : store) : result CConstraintBox :=
  (let? d := deref val h in
   let? lo := carray_min (X d) in
   let? hi := carray_max (X d) in
   Return (mkBox lo hi))%result.

(** Before the security evaluation: [ts.X = nmz.fit_transform(ts.X)]. *)
Definition refit_on_test (ts : ref) (h : store) : result (CNormalizerMinMax * store) :=
  fit_transform_X ts h.

End Nb05.

(** ** Lab 06, explainability: the bootstrap cell has no [try] *)

Module Nb06.

Definition installs : M unit :=
  (pip_install "secml" >>
   pip_install "foolbox" >>
   pip_install "transformers" >>
   pip_install "shap" >>
   pip_install "datasets")%cell.

Definition bootstrap : M unit :=
  (installs >> (import_ "secml" >> import_ "foolbox"))%cell.

End Nb06.

(** ** Evasion attacks *)

Module Attack.

(** The classifier as an attack uses it.  [loss_gradient x y j] is the
    direction the attack follows at [x] for the label [y], along feature
    [j] (for the plain attack the sign of the loss gradient, for the
    averaged attack the mean of the estimates around [x], for the logits
    attack the gradient taken before the softmax). *)
Record CClassifier : Type := mkClf {
  predict : vec -> Z;
  decision_function : vec -> list Q;
  loss_gradient : vec -> Z -> nat -> Q;
  objective_function : vec -> Z -> Q
}.

(** An attack object: its configuration, the perturbation drawn for a
    random start, and the path of its last run. *)
Record CFoolboxPGDLinf : Type := mkAttack {
  classifier : CClassifier;
  y_target : option Z;
  lb : Q;
  ub : Q;
  epsilons : Q;
  abs_stepsize : Q;
  steps : nat;
  random_start : bool;
  start_noise : nat -> Q;
  x_seq : list vec
}.

(** Modelled from the spec: the attack's projection step, onto the budget
    around [x0] and then onto the feature bounds; like the rest of the
    attack it is not among the sources. *)
Definition project (a : CFoolboxPGDLinf) (x0 x : vec) : vec :=
  map (clip (lb a) (ub a))
      (zip_with (fun o v => o + clip (- epsilons a) (epsilons a) (v - o)) x0 x).

(** Modelled from the spec: one step of the attack's optimisation, which
    lives in the toolkit's attack class and in the repository's
    [attacks/averaged_pgd.py] and [attacks/logits_pgd.py], none of them among
    the sources.  The update is the notebook's
    [x_{i+1} = x_i + alpha * grad f(x_i, y)], followed by the projection
    step that the spec says enforces the bounds; a targeted attack descends
    on the loss of the target class. *)
Definition pgd_step (a : CFoolboxPGDLinf) (y : Z) (x0 x : vec) : vec :=
  let direction j :=
    match y_target a with
    | Some t => - loss_gradient (classifier a) x t j
    | None => loss_gradient (classifier a) x y j
    end in
  project a x0 (imap (fun j v => v + abs_stepsize a * direction j) x).

(** Modelled from the spec: the points visited after [x] in [n] steps. *)
Fixpoint pgd_iterate (a : CFoolboxPGDLinf) (y : Z) (x0 x : vec) (n : nat) : list vec :=
  match n with
  | O => []
  | S n' => let x' := pgd_step a y x0 x in x' :: pgd_iterate a y x0 x' n'
  end.

(** Modelled from the spec: where the optimisation starts, at the sample
    or, with the random-start flag, at a projected random point of its
    neighbourhood. *)
Definition pgd_start (a : CFoolboxPGDLinf) (x0 : vec) : vec :=
  if random_start a
  then project a x0 (imap (fun j v => v + start_noise a j) x0)
  else x0.

(** Modelled from the spec: the path of one sample through the input
    space, start included. *)
Definition pgd_path (a : CFoolboxPGDLinf) (y : Z) (x0 : vec) : list vec :=
  let s := pgd_start a x0 in s :: pgd_iterate a y x0 s (steps a).

Definition pgd_adv (a : CFoolboxPGDLinf) (y : Z) (x0 : vec) : vec :=
  default x0 (last (pgd_path a y x0)).

(** What [run] returns, in the order the notebooks unpack it:
    [y_pred, scores, adv_ds, f_opt]. *)
Record run_output : Type := mkOutput {
  y_pred : list Z;
  scores : list (list Q);
  adv_ds : CDataset;
  f_opt : Q
}.

(** Modelled from the spec: [attack.run(x, y)] on a batch, absent from the
    sources like the step above.  The labels must match the samples; the
    samples must lie within the bounds (the check on [lb] and [ub] that lab
    05 names when it rescales its test set for it); every sample is then
    optimised on its own, the objective value is the mean over the batch,
    and the attack keeps the path of the last sample. *)
Definition run (a : CFoolboxPGDLinf) (x : matrix) (y : list Z)
  : result (run_output * CFoolboxPGDLinf) :=
  if negb (Nat.eqb (length x) (length y)) then Raise ValueError
  else if negb (all_within (lb a) (ub a) x) then Raise AssertionError
  else
    let advs := zip_with (pgd_adv a) y x in
    let path :=
      match last y, last x with
      | Some y_n, Some x_n => pgd_path a y_n x_n
      | _, _ => x_seq a
      end in
    let value :=
      foldr Qplus 0 (zip_with (objective_function (classifier a)) advs y)
      / inject_Z (Z.of_nat (length y)) in
    Return (mkOutput (map (predict (classifier a)) advs)
                     (map (decision_function (classifier a)) advs)
                     {| X := advs; Y := y |}
                     value,
            mkAttack (classifier a) (y_target a) (lb a) (ub a) (epsilons a)
                     (abs_stepsize a) (steps a) (random_start a) (start_noise a) path).

(** The distance of the attack's norm: the largest change of a feature. *)
Definition linf_dist (x0 x : vec) : Q :=
  foldr qmax 0 (zip_with (fun o v => Qabs (v - o)) x0 x).

(** Lab 06 configures its attack as
    [CFoolboxPGDLinf(clf, y_target=2, lb=0.0, ub=1.0, steps=30,
    epsilons=0.3, abs_stepsize=0.01, random_start=False)]. *)
Definition lab06_attack (clf : CClassifier) : CFoolboxPGDLinf :=
  mkAttack clf (Some 2%Z) 0 1 (3 # 10) (1 # 100) 30 false (fun _ => 0) [].

(** The adversarial point [adv] for the sample [x0] respects the attack's
    budget: same features, at most [epsilons] away, inside the bounds. *)
Definition within_budget (a : CFoolboxPGDLinf) (x0 adv : vec) : Prop :=
  length adv = length x0 /\
  linf_dist x0 adv <= epsilons a /\
  in_box (lb a) (ub a) adv = true.

(** Pointwise form of the budget. *)
Definition close (a : CFoolboxPGDLinf) (x0 x : vec) : Prop :=
  Forall2 (fun o v => - epsilons a <= v - o /\ v - o <= epsilons a) x0 x.

(** A batch the attack of lab 06 accepts, and one with a feature above
    [ub = 1]. *)
Definition batch_inside : matrix := [[1 # 2; 9 # 10]].
Definition batch_outside : matrix := [[2; 1 # 2]].

(** A classifier to run the attack against: it answers class 0 everywhere
    and its loss grows along every feature. *)
Definition constant_classifier : CClassifier :=
  mkClf (fun _ => 0%Z) (fun _ => [1; 0]) (fun _ _ _ => 1) (fun _ _ => 0).

End Attack.

(** ** Accuracy and the evaluation cells of lab 04 *)

(** A score is a number, or not a number when there is nothing to average. *)
Inductive score : Type :=
  | nan
  | num (q : Q).

(** Modelled from the spec: accuracy, which the notebooks take from the
    toolkit as [CMetricAccuracy().performance_score(y_true, y_pred)], the
    fraction of predictions that equal the true label. *)
Definition performance_score (y_true y_pred : list Z) : result score :=
  if negb (Nat.eqb (length y_true) (length y_pred)) then Raise ValueError
  else
    match y_true with
    | [] => Return nan
    | _ =>
        let hits := length (filter (fun p => Z.eqb p.1 p.2) (zip y_true y_pred)) in
        Return (num (Z.of_nat hits # Pos.of_nat (length y_true)))
    end.

(** The calls a cell makes, in order. *)
Inductive event : Type :=
  | Predict
  | Run
  | PerformanceScore
  | PrintScore (s : score).

Definition event_kind (e : event) : nat :=
  match e with
  | Predict => 0
  | Run => 1
  | PerformanceScore => 2
  | PrintScore _ => 3
  end.

Module Nb04Eval.

(** The robust-accuracy cells ([idx = 10] for the k-WTA network,
    [idx = 100] for the distilled one):

    [samples, labels = ts.X[:idx, :], ts.Y[:idx]]
    [y_pred = clf.predict(samples)]
    [y_pred_adv, _, _, _ = attack.run(samples, labels)]
    [accuracy = metric.performance_score(y_true=labels, y_pred=y_pred)]
    [robust_accuracy = metric.performance_score(y_true=labels, y_pred=y_pred_adv)]
    and the two [print]s.

    [predict] and [run] stand for the methods of whatever classifier and
    attack the notebook holds.  The result is the trace of calls and the
    two scores. *)
Definition evaluate {Scores Dataset Value : Type}
    (predict : matrix -> list Z)
    (run : matrix -> list Z -> result (list Z * Scores * Dataset * Value))
    (idx : nat) (ts : CDataset) : list event * result (score * score) :=
  let samples := take idx (X ts) in
  let labels := take idx (Y ts) in
  let y_pred := predict samples in
  match run samples labels with
  | Raise e => ([Predict; Run], Raise e)
  | Return (y_pred_adv, _, _, _) =>
      match performance_score labels y_pred with
      | Raise e => ([Predict; Run; PerformanceScore], Raise e)
      | Return accuracy =>
          match performance_score labels y_pred_adv with
          | Raise e => ([Predict; Run; PerformanceScore; PerformanceScore], Raise e)
          | Return robust_accuracy =>
              ([Predict; Run; PerformanceScore; PerformanceScore;
                PrintScore accuracy; PrintScore robust_accuracy],
               Return (accuracy, robust_accuracy))
          end
      end
  end.

End Nb04Eval.

(** ** Running a cell again *)

(** Running [c] a second time, from the world its first run left, ends as
    the first run did and leaves that world as it is. *)
Definition rerun_same (c : M unit) (w : world) : Prop := c (c w).2 = c w.

(** [c] returns from [w] without changing it. *)
Definition settled (c : M unit) (w : world) : Prop := c w = (Return tt, w).

(** [c] never changes the observation [f] of the world. *)
Definition keeps {A T : Type} (f : world -> T) (c : M A) : Prop :=
  forall w, f (c w).2 = f w.

(** The entry [unica_mlsec_labs] of the working directory, when there is
    one, holds the companion repository's [models] directory. *)
Definition repo_dir_has_models (w : world) : Prop :=
  is_Some (fs w !! (cwd w ++ ["unica_mlsec_labs"])) ->
  is_Some (fs w !! (cwd w ++ ["unica_mlsec_labs"; "models"])).

(** ** Worlds to run the cells in *)

(** A session restarted in [/content], next to an earlier clone. *)
Definition restarted_session : world :=
  mkWorld ["content"]
          (<[ ["content"] := Dir ]>
           (<[ ["content"; "unica_mlsec_labs"] := Dir ]>
            (<[ ["content"; "unica_mlsec_labs"; "models"] := Dir ]> ∅)))
          (<[ "secml" := None ]> (<[ "torch" := None ]> ∅))
          true.

(** A session in [/content] where [unica_mlsec_labs] is an empty directory. *)
Definition stale_session : world :=
  mkWorld ["content"]
          (<[ ["content"] := Dir ]>
           (<[ ["content"; "unica_mlsec_labs"] := Dir ]> ∅))
          (<[ "secml" := None ]> (<[ "foolbox" := None ]> (<[ "robustbench" := None ]> ∅)))
          true.

(** A session where [foolbox] is missing and [secml] is installed but
    fails on import with an error of its own. *)
Definition broken_session : world :=
  mkWorld ["content"]
          (<[ ["content"] := Dir ]> ∅)
          (<[ "secml" := Some (OtherError "RuntimeError") ]> ∅)
          true.

(** ** Sample data *)

(** Two validation points of lab 05. *)
Definition validation_sample : CDataset :=
  {| X := [[1 # 2; 3 # 4]; [- (1 # 10); 6 # 5]]; Y := [0; 1]%Z |}.

(** Two three-pixel images, before and after the division. *)
Definition pixels : CDataset :=
  {| X := [[0; 51; 255]; [102; 204; 153]]; Y := [3; 8]%Z |}.

Definition scaled_pixels : CDataset :=
  {| X := carray_div 255 (X pixels); Y := Y pixels |}.

(** A store of lab 05 after the splits: training points spanning
    [[0, 1]] on both features, a validation point beyond that range. *)
Definition blobs_store : store :=
  <[ 1%positive := {| X := [[0; 0]; [1; 1]]; Y := [0; 1]%Z |} ]>
  (<[ 2%positive := {| X := [[2; 0]]; Y := [1%Z] |} ]>
  (<[ 3%positive := {| X := [[1 # 2; 1 # 2]]; Y := [0%Z] |} ]> ∅)).

(** ** What a normalisation may touch *)

(** Between the stores [h] and [h'] the object behind [v] is the same
    object with its array changed row by row through [f]: same labels, same
    number of samples, same order. *)
Definition only_X_changed (f : vec -> vec) (v : ref) (h h' : store) : Prop :=
  exists d d',
    h !! v = Some d /\ h' !! v = Some d' /\
    Y d' = Y d /\
    num_samples d' = num_samples d /\
    (forall i : nat, X d' !! i = (f <$> (X d !! i))).

(** The normalisations of the notebooks, each with the row map it applies:
    [v.X /= k], [v.X = nmz.fit_transform(v.X)], [v.X = nmz.transform(v.X)]. *)
Inductive normalized (v : ref) (h h' : store) : (vec -> vec) -> Prop :=
  | by_division (k : Q) :
      idiv_X k v h = Return h' ->
      normalized v h h' (map (fun x => x / k))
  | by_fit_transform (n : CNormalizerMinMax) :
      fit_transform_X v h = Return (n, h') ->
      normalized v h h' (scale_row (nmz_min n) (nmz_max n))
  | by_transform (n : CNormalizerMinMax) :
      transform_X n v h = Return h' ->
      normalized v h h' (scale_row (nmz_min n) (nmz_max n)).

(** Every entry of the array behind [v] lies in the unit interval. *)
Definition unit_range (v : ref) (h : store) : Prop :=
  exists d, h !! v = Some d /\ all_within 0 1 (X d) = true.

(** ** File trees *)

(** Every entry of the file tree lies in directories that are entries
    themselves. *)
Definition prefix_closed (w : world) : Prop :=
  forall p q : path, p <> [] -> is_Some (fs w !! (p ++ q)) -> is_Some (fs w !! p).

(** The file tree of [w'] has every entry of [w], unchanged. *)
Definition fs_kept (w w' : world) : Prop :=
  forall (p : path) (n : node), fs w !! p = Some n -> fs w' !! p = Some n.

(** [w'] is [w] with entries added to the file tree, nothing else. *)
Definition extends (w w' : world) : Prop :=
  cwd w' = cwd w /\ site_packages w' = site_packages w /\ online w' = online w /\
  fs_kept w w'.

(** No installed package fails on import with an error of its own. *)
Definition packages_sound (pkgs : list string) (w : world) : Prop :=
  forall (pkg : string) (e : exn),
    pkg ∈ pkgs -> site_packages w !! pkg = Some (Some e) -> is_ImportError e = true.

(** A Colab session that starts in [/content] with nothing installed. *)
Definition fresh_session (net : bool) : world :=
  mkWorld ["content"] (<[ ["content"] := Dir ]> ∅) ∅ net.

(** A session where the k-WTA cell can run: the clone is there, the
    packages import. *)
Definition ready_session : world :=
  mkWorld ["content"; "unica_mlsec_labs"]
          (<[ ["content"] := Dir ]>
           (<[ ["content"; "unica_mlsec_labs"] := Dir ]>
            (<[ ["content"; "unica_mlsec_labs"; "models"] := Dir ]>
             (<[ ["content"; "unica_mlsec_labs"; "models"; "kwta.py"] := File "models/kwta.py" ]>
              ∅))))
          (<[ "secml" := None ]> (<[ "torch" := None ]> (<[ "robustbench" := None ]> ∅)))
          true.

(** ** Plot limits of lab 05 *)

(** Python's [min(a, b)] and [max(a, b)] on two numbers: the first argument
    wins a tie. *)
Definition py_min (a b : Q) : Q := if Qle_bool a b then a else b.
Definition py_max (a b : Q) : Q := if Qle_bool b a then a else b.

(** [a.append(b)]: a new dataset, the samples of [a] followed by those of
    [b]; arrays of different widths cannot be joined. *)
Definition ds_append (a b : CDataset) : result CDataset :=
  match X a, X b with
  | ra :: _, rb :: _ =>
      if Nat.eqb (length ra) (length rb)
      then Return {| X := X a ++ X b; Y := Y a ++ Y b |}
      else Raise ValueError
  | _, _ => Return {| X := X a ++ X b; Y := Y a ++ Y b |}
  end.

Module Nb05Plot.

(** [pois_tr = tr.append(pois_ds)] and, in the plotting cell,
    [min_limit = min(pois_tr.X.min(), ts.X.min())],
    [max_limit = max(pois_tr.X.max(), ts.X.max())]. *)
Definition plot_limits (tr pois_ds ts : CDataset) : result (Q * Q) :=
  (let? pois_tr := ds_append tr pois_ds in
   let? a := carray_min (X pois_tr) in
   let? b := carray_min (X ts) in
   let? c := carray_max (X pois_tr) in
   let? d := carray_max (X ts) in
   Return (py_min a b, py_max c d))%result.

End Nb05Plot.

(** ** Figures and attributions of lab 06 *)

Module Nb06Fig.

(** [th = max(abs(attr.min()), abs(attr.max()))], the bound of the colour
    scale [vmin=-1*th, vmax=th]. *)
Definition threshold (attr : matrix) : result Q :=
  (let? lo := carray_min attr in
   let? hi := carray_max attr in
   Return (py_max (Qabs lo) (Qabs hi)))%result.

(** The positions passed to [fig.subplot] by the explanation figure, in the
    order of the calls: for the [i]-th explainer [sp_idx = i * (num_classes+1)],
    the image at [sp_idx+1] and class [c] at [sp_idx+2+c]. *)
Definition explanation_slots (n_explainers num_classes : nat) (classes : list nat)
  : list nat :=
  concat (map (fun i =>
                 let sp_idx := (i * (num_classes + 1))%nat in
                 (sp_idx + 1)%nat :: map (fun c => (sp_idx + 2 + c)%nat) classes)
              (seq 0 n_explainers)).

(** [l[-n:]]: the last [n] entries; [l[-0:]] is all of [l]. *)
Definition last_slice {A : Type} (n : nat) (l : list A) : list A :=
  if Nat.eqb n 0 then l else drop (length l - n)%nat l.

(** [tr_top = row[:n_xc]] and then [tr_top = tr_top.append(row[-n_xc:])],
    on a row of [infl.argsort(axis=1)]. *)
Definition tr_top {A : Type} (n_xc : nat) (row : list A) : list A :=
  take n_xc row ++ last_slice n_xc row.

(** The positions passed to [fig.subplot] by the prototype figure: for the
    [i]-th test sample [sp_idx = i * (n_xc*num_classes+1)], the image at
    [sp_idx+1] and the [j]-th entry of [tr_top[::-1]] at [sp_idx+2+j].
    [rows] holds the argsort row of each test sample of [ts_list]. *)
Definition prototype_slots (n_xc num_classes : nat) (rows : list (list nat)) : list nat :=
  concat (imap (fun i row =>
                  let sp_idx := (i * (n_xc * num_classes + 1))%nat in
                  (sp_idx + 1)%nat
                  :: imap (fun j _ => (sp_idx + 2 + j)%nat) (reverse (tr_top n_xc row)))
               rows).

(** [attr[c, :] = attr_c] on an array with rows of [width] entries: the
    row index must exist, and the value must have the row's size or be a
    single entry, which is then repeated. *)
Definition assign_row (c : nat) (v : vec) (width : nat) (attr : matrix) : result matrix :=
  if negb (Nat.ltb c (length attr)) then Raise (OtherError "IndexError")
  else if Nat.eqb (length v) width then Return (<[c := v]> attr)
  else
    match v with
    | [a] => Return (<[c := replicate width a]> attr)
    | _ => Raise ValueError
    end.

(** The loop that collects the attributions of one explainer.
    [attr = CArray.empty(shape=(tr.num_classes, x.size))] allocates rows
    whose content is whatever the memory held, here [garbage]; then, for
    every [c] of [tr.classes], [attr[c, :] = attr_c], where [explain c] is
    the explanation with respect to class [c]. *)
Fixpoint collect (explain : nat -> vec) (width : nat) (classes : list nat) (attr : matrix)
  : result matrix :=
  match classes with
  | [] => Return attr
  | c :: cs =>
      match assign_row c (explain c) width attr with
      | Raise e => Raise e
      | Return attr' => collect explain width cs attr'
      end
  end.

End Nb06Fig.

(** A row of argsort output is in order of influence: [infl] does not
    decrease along it. *)
Definition ascending (infl : nat -> Q) (row : list nat) : Prop :=
  StronglySorted (fun a b => infl a <= infl b) row.

Definition descending (infl : nat -> Q) (row : list nat) : Prop :=
  StronglySorted (fun a b => infl b <= infl a) row.

(* ===================================================================== *)
(** * Part II: lemmas and theorems *)
(* ===================================================================== *)

(** ** Order facts on entries *)

Lemma Qle_bool_false (a b : Q) : Qle_bool a b = false -> b < a.
Proof.
  intros E. apply Qnot_le_lt. rewrite <- Qle_bool_iff. congruence.
Qed.

(** Case analysis on a boolean comparison, leaving the order fact. *)
Ltac case_Qle a b :=
  let E := fresh "E" in
  destruct (Qle_bool a b) eqn:E;
  [apply Qle_bool_iff in E | apply Qle_bool_false in E].

Lemma qmin_le_l (a b : Q) : qmin a b <= a.
Proof. unfold qmin. case_Qle a b; lra. Qed.

Lemma qmin_le_r (a b : Q) : qmin a b <= b.
Proof. unfold qmin. case_Qle a b; lra. Qed.

Lemma qmax_ge_l (a b : Q) : a <= qmax a b.
Proof. unfold qmax. case_Qle a b; lra. Qed.

Lemma qmax_ge_r (a b : Q) : b <= qmax a b.
Proof. unfold qmax. case_Qle a b; lra. Qed.

Lemma qmax_lub (a b c : Q) : a <= c -> b <= c -> qmax a b <= c.
Proof. intros Ha Hb. unfold qmax. case_Qle a b; lra. Qed.

Lemma within_spec (lo hi v : Q) : within lo hi v = true <-> lo <= v /\ v <= hi.
Proof.
  unfold within. rewrite andb_true_iff, !Qle_bool_iff. tauto.
Qed.

Lemma in_box_spec (lo hi : Q) (x : vec) :
  in_box lo hi x = true <-> Forall (fun v => lo <= v /\ v <= hi) x.
Proof.
  unfold in_box. rewrite forallb_forall, Forall_forall.
  split; intros H v Hv.
  - apply within_spec, H, list_elem_of_In, Hv.
  - apply within_spec, H, list_elem_of_In, Hv.
Qed.

Lemma all_within_spec (lo hi : Q) (m : matrix) :
  all_within lo hi m = true <-> Forall (fun r => in_box lo hi r = true) m.
Proof.
  unfold all_within. rewrite forallb_forall, Forall_forall.
  split; intros H r Hr; apply H; [apply list_elem_of_In | apply list_elem_of_In]; exact Hr.
Qed.

(** A clipped value lies between the bounds, when there is room between
    them. *)
Lemma clip_within (lo hi v : Q) : lo <= hi -> lo <= clip lo hi v /\ clip lo hi v <= hi.
Proof.
  intros Hlh. unfold clip, qmax, qmin.
  case_Qle hi v; case_Qle lo hi; try case_Qle lo v; lra.
Qed.

(** Clipping to an interval moves no further from a point of the interval. *)
Lemma clip_closer (lo hi o v e : Q) :
  lo <= o -> o <= hi -> - e <= v - o -> v - o <= e -> 0 <= e ->
  - e <= clip lo hi v - o /\ clip lo hi v - o <= e.
Proof.
  intros Hlo Hhi H1 H2 He. unfold clip, qmax, qmin.
  case_Qle hi v; case_Qle lo hi; try case_Qle lo v; lra.
Qed.

(** ** Minimum and maximum of an array *)

Lemma foldl_qmin_lower (vs : vec) (a : Q) :
  foldl qmin a vs <= a /\ Forall (fun u => foldl qmin a vs <= u) vs.
Proof.
  revert a. induction vs as [|u vs IH]; intros a; simpl.
  - split; [lra | constructor].
  - destruct (IH (qmin a u)) as [H1 H2].
    pose proof (qmin_le_l a u). pose proof (qmin_le_r a u).
    split; [lra |]. constructor; [lra | exact H2].
Qed.

Lemma foldl_qmax_upper (vs : vec) (a : Q) :
  a <= foldl qmax a vs /\ Forall (fun u => u <= foldl qmax a vs) vs.
Proof.
  revert a. induction vs as [|u vs IH]; intros a; simpl.
  - split; [lra | constructor].
  - destruct (IH (qmax a u)) as [H1 H2].
    pose proof (qmax_ge_l a u). pose proof (qmax_ge_r a u).
    split; [lra |]. constructor; [lra | exact H2].
Qed.

(** On an array with an entry, [min()] and [max()] return, and bound every
    entry. *)
Lemma carray_min_max (m : matrix) :
  concat m <> [] ->
  exists lo hi, carray_min m = Return lo /\ carray_max m = Return hi /\
    lo <= hi /\ Forall (fun v => lo <= v /\ v <= hi) (concat m).
Proof.
  intros Hne. unfold carray_min, carray_max.
  destruct (concat m) as [|v vs]; [congruence |].
  destruct (foldl_qmin_lower vs v) as [L1 L2].
  destruct (foldl_qmax_upper vs v) as [U1 U2].
  exists (foldl qmin v vs), (foldl qmax v vs).
  repeat split; try reflexivity; [lra |].
  constructor; [split; assumption |].
  rewrite Forall_forall in *. intros u Hu. split; [apply L2 | apply U2]; exact Hu.
Qed.

Lemma rect_concat_nonempty (n : nat) (m : matrix) :
  (0 < n)%nat -> m <> [] -> rect n m -> concat m <> [].
Proof.
  intros Hn Hm Hr. destruct m as [|r rs]; [congruence |].
  apply Forall_cons in Hr as [Hlen _].
  destruct r; simpl in *; [lia | discriminate].
Qed.

(** ** Lab 05: the attack space *)

(** C10.  In the poisoning notebook, when the validation set has a sample
    (each of [n_features = 2] features), [val.X.min()] and [val.X.max()]
    return bounds with [lb <= ub], so the box built from them is not empty,
    and every validation point satisfies the box constraint. *)
Theorem attack_space_contains_validation (v : ref) (h : store) (d : CDataset) :
  h !! v = Some d ->
  X d <> [] ->
  rect Nb05.n_features (X d) ->
  exists b, Nb05.attack_space v h = Return b /\
    Nb05.lb b <= Nb05.ub b /\
    Forall (fun x => Nb05.box_contains b x = true) (X d).
Proof.
  intros Hv Hne Hrect.
  assert (Hc : concat (X d) <> []).
  { apply (rect_concat_nonempty Nb05.n_features); [unfold Nb05.n_features; lia | | ]; assumption. }
  destruct (carray_min_max (X d) Hc) as (lo & hi & Hmin & Hmax & Hle & Hall).
  exists (Nb05.mkBox lo hi).
  unfold Nb05.attack_space, deref. rewrite Hv. simpl. rewrite Hmin. simpl. rewrite Hmax. simpl.
  split; [reflexivity |]. split; [exact Hle |].
  rewrite Forall_forall. intros x Hx.
  unfold Nb05.box_contains. simpl. apply in_box_spec.
  rewrite Forall_forall in *. intros u Hu. apply Hall.
  apply list_elem_of_In, in_concat. exists x. split; apply list_elem_of_In; assumption.
Qed.

Lemma attack_space_contains_validation_witness :
  ({[ 2%positive := validation_sample ]} : store) !! 2%positive = Some validation_sample /\
  X validation_sample <> [] /\
  rect Nb05.n_features (X validation_sample) /\
  exists b, Nb05.attack_space 2%positive {[ 2%positive := validation_sample ]} = Return b /\
    Nb05.lb b <= Nb05.ub b /\
    Forall (fun x => Nb05.box_contains b x = true) (X validation_sample).
Proof.
  assert (H1 : ({[ 2%positive := validation_sample ]} : store) !! 2%positive
               = Some validation_sample) by reflexivity.
  assert (H2 : X validation_sample <> []) by discriminate.
  assert (H3 : rect Nb05.n_features (X validation_sample)).
  { repeat constructor. }
  repeat split; try assumption.
  exact (attack_space_contains_validation 2%positive _ validation_sample H1 H2 H3).
Defined.

(** ** Rescaling to the unit interval *)

Lemma carray_div_unit (m : matrix) :
  all_within 0 255 m = true -> all_within 0 1 (carray_div 255 m) = true.
Proof.
  rewrite !all_within_spec. unfold carray_div. intros H.
  apply Forall_map. eapply Forall_impl; [exact H |].
  intros r Hr. simpl. apply in_box_spec. apply in_box_spec in Hr.
  apply Forall_map. eapply Forall_impl; [exact Hr |].
  intros v [H0 H1]. cbv beta.
  split; [apply Qle_shift_div_l | apply Qle_shift_div_r]; lra.
Qed.

Lemma scale_unit (mn mx v : Q) :
  mn <= v -> v <= mx -> 0 <= scale mn mx v /\ scale mn mx v <= 1.
Proof.
  intros Hlo Hhi. unfold scale.
  destruct (Qeq_bool (mx - mn) 0) eqn:E.
  - apply Qeq_bool_iff in E. split; lra.
  - apply Qeq_bool_neq in E.
    destruct (Qlt_le_dec 0 (mx - mn)) as [Hpos | Hneg]; [| exfalso; apply E; lra].
    split.
    + apply Qmult_le_0_compat; [lra |]. apply Qlt_le_weak, Qinv_lt_0_compat, Hpos.
    + change ((v - mn) / (mx - mn) <= 1). apply Qle_shift_div_r; [exact Hpos | lra].
Qed.

Lemma scale_row_unit (mns r mxs : vec) :
  Forall2 Qle mns r -> Forall2 Qle r mxs -> in_box 0 1 (scale_row mns mxs r) = true.
Proof.
  intros H. revert mxs. induction H as [|mn v mns r Hle _ IH]; intros mxs Hup.
  - reflexivity.
  - inversion Hup as [|v' mx r' mxs' Hle' Hup']; subst. simpl.
    rewrite (IH _ Hup'), andb_true_r. apply within_spec. apply scale_unit; assumption.
Qed.

Lemma Forall2_Qle_refl (a : vec) : Forall2 Qle a a.
Proof. induction a; constructor; [lra | assumption]. Qed.

Lemma Forall2_Qle_trans (a b c : vec) : Forall2 Qle a b -> Forall2 Qle b c -> Forall2 Qle a c.
Proof. apply Forall2_trans. intros x y z Hxy Hyz. lra. Qed.

Lemma zip_qmin_lower (a r : vec) :
  length a = length r ->
  Forall2 Qle (zip_with qmin a r) a /\ Forall2 Qle (zip_with qmin a r) r.
Proof.
  revert r. induction a as [|x a IH]; intros [|y r] Hlen; simpl in *; try discriminate.
  - split; constructor.
  - destruct (IH r) as [H1 H2]; [lia |].
    split; constructor; auto using qmin_le_l, qmin_le_r.
Qed.

Lemma zip_qmax_upper (a r : vec) :
  length a = length r ->
  Forall2 Qle a (zip_with qmax a r) /\ Forall2 Qle r (zip_with qmax a r).
Proof.
  revert r. induction a as [|x a IH]; intros [|y r] Hlen; simpl in *; try discriminate.
  - split; constructor.
  - destruct (IH r) as [H1 H2]; [lia |].
    split; constructor; auto using qmax_ge_l, qmax_ge_r.
Qed.

(** The column minima lie below every row, the maxima above. *)
Lemma col_min_lower (rs : matrix) (acc : vec) (n : nat) :
  length acc = n -> rect n rs ->
  length (foldl (zip_with qmin) acc rs) = n /\
  Forall2 Qle (foldl (zip_with qmin) acc rs) acc /\
  Forall (fun r => Forall2 Qle (foldl (zip_with qmin) acc rs) r) rs.
Proof.
  revert acc. induction rs as [|r rs IH]; intros acc Hacc Hrect; simpl.
  - repeat split; [assumption | apply Forall2_Qle_refl | constructor].
  - apply Forall_cons in Hrect as [Hr Hrs].
    destruct (zip_qmin_lower acc r) as [Za Zr]; [congruence |].
    destruct (IH (zip_with qmin acc r)) as (L & B & R); [| assumption |].
    { rewrite length_zip_with_l_eq; congruence. }
    repeat split; [assumption | eapply Forall2_Qle_trans; eassumption |].
    constructor; [eapply Forall2_Qle_trans; eassumption | assumption].
Qed.

Lemma col_max_upper (rs : matrix) (acc : vec) (n : nat) :
  length acc = n -> rect n rs ->
  length (foldl (zip_with qmax) acc rs) = n /\
  Forall2 Qle acc (foldl (zip_with qmax) acc rs) /\
  Forall (fun r => Forall2 Qle r (foldl (zip_with qmax) acc rs)) rs.
Proof.
  revert acc. induction rs as [|r rs IH]; intros acc Hacc Hrect; simpl.
  - repeat split; [assumption | apply Forall2_Qle_refl | constructor].
  - apply Forall_cons in Hrect as [Hr Hrs].
    destruct (zip_qmax_upper acc r) as [Za Zr]; [congruence |].
    destruct (IH (zip_with qmax acc r)) as (L & B & R); [| assumption |].
    { rewrite length_zip_with_l_eq; congruence. }
    repeat split; [assumption | eapply Forall2_Qle_trans; eassumption |].
    constructor; [eapply Forall2_Qle_trans; eassumption | assumption].
Qed.

Lemma length_check_rect (n : nat) (m : matrix) :
  forallb (fun r => Nat.eqb (length r) n) m = true <-> rect n m.
Proof.
  unfold rect. rewrite forallb_forall, Forall_forall. split; intros H r Hr.
  - apply Nat.eqb_eq, H, list_elem_of_In, Hr.
  - apply Nat.eqb_eq, H, list_elem_of_In, Hr.
Qed.

(** On a two-dimensional array with a row, [fit_transform] returns, keeps
    the rows in place and lands in the unit interval. *)
Lemma nmz_fit_transform_rect (n : nat) (m : matrix) :
  m <> [] -> rect n m ->
  exists nz, nmz_fit_transform m = Return (nz, map (scale_row (nmz_min nz) (nmz_max nz)) m) /\
    all_within 0 1 (map (scale_row (nmz_min nz) (nmz_max nz)) m) = true.
Proof.
  intros Hne Hrect. destruct m as [|r rs]; [congruence |].
  pose proof Hrect as Hrect'. apply Forall_cons in Hrect' as [Hr Hrs].
  destruct (col_min_lower rs r n Hr Hrs) as (Ln & Bn & Rn).
  destruct (col_max_upper rs r n Hr Hrs) as (Lx & Bx & Rx).
  exists {| nmz_min := foldl (zip_with qmin) r rs; nmz_max := foldl (zip_with qmax) r rs |}.
  unfold nmz_fit_transform, nmz_fit, nmz_transform, col_min, col_max.
  cbn [nmz_min nmz_max].
  assert (Hchk : forallb (fun r0 => Nat.eqb (length r0) (length (foldl (zip_with qmin) r rs)))
                         (r :: rs) = true).
  { apply length_check_rect. rewrite Ln. exact Hrect. }
  rewrite Hchk. split; [reflexivity |].
  apply all_within_spec, Forall_map, Forall_cons. split.
  - simpl. apply scale_row_unit; assumption.
  - rewrite Forall_forall in *. intros r' Hr'. simpl.
    apply scale_row_unit; [apply Rn | apply Rx]; exact Hr'.
Qed.

(** Whatever [fit_transform] returns lies in the unit interval. *)
Lemma nmz_fit_transform_unit (m m' : matrix) (nz : CNormalizerMinMax) :
  nmz_fit_transform m = Return (nz, m') ->
  m' = map (scale_row (nmz_min nz) (nmz_max nz)) m /\ all_within 0 1 m' = true.
Proof.
  intros H.
  assert (Hne : m <> []).
  { intros ->. discriminate H. }
  assert (Hrect : rect (length (nmz_min nz)) m).
  { unfold nmz_fit_transform in H.
    destruct (nmz_fit m) as [e | nz0] eqn:Hfit; [discriminate |].
    unfold nmz_transform in H.
    destruct (forallb _ m) eqn:Hchk; [| discriminate].
    inversion H; subst. apply length_check_rect, Hchk. }
  destruct (nmz_fit_transform_rect _ m Hne Hrect) as (nz1 & Hrun & Hunit).
  rewrite H in Hrun. inversion Hrun; subst. split; [reflexivity | exact Hunit].
Qed.

(** ** Objects in the store *)

Lemma deref_inv (v : ref) (h : store) (d : CDataset) :
  deref v h = Return d -> h !! v = Some d.
Proof. unfold deref. destruct (h !! v); intros H; inversion H; reflexivity. Qed.

Lemma idiv_X_inv (k : Q) (v : ref) (h h' : store) :
  idiv_X k v h = Return h' ->
  exists d, h !! v = Some d /\ h' = <[v := {| X := carray_div k (X d); Y := Y d |}]> h.
Proof.
  unfold idiv_X. destruct (h !! v) as [d|]; intros H; inversion H. eauto.
Qed.

Lemma set_X_inv (m : matrix) (v : ref) (h h' : store) :
  set_X m v h = Return h' ->
  exists d, h !! v = Some d /\ length m = length (Y d) /\
    h' = <[v := {| X := m; Y := Y d |}]> h.
Proof.
  unfold set_X. destruct (h !! v) as [d|]; [| discriminate].
  destruct (Nat.eqb (length m) (length (Y d))) eqn:E; intros H; inversion H.
  apply Nat.eqb_eq in E. eauto.
Qed.

Lemma fit_transform_X_inv (v : ref) (h h' : store) (n : CNormalizerMinMax) :
  fit_transform_X v h = Return (n, h') ->
  exists d m, h !! v = Some d /\ nmz_fit_transform (X d) = Return (n, m) /\
    h' = <[v := {| X := m; Y := Y d |}]> h.
Proof.
  unfold fit_transform_X. destruct (deref v h) as [|d] eqn:Hd; [discriminate |].
  apply deref_inv in Hd. simpl.
  destruct (nmz_fit_transform (X d)) as [|[n0 m]] eqn:Hf; [discriminate |]. simpl.
  destruct (set_X m v h) as [|h1] eqn:Hs; [discriminate |]. simpl.
  intros H. inversion H; subst.
  apply set_X_inv in Hs as (d0 & Hd0 & _ & ->).
  rewrite Hd in Hd0. inversion Hd0; subst. eauto.
Qed.

Lemma transform_X_inv (n : CNormalizerMinMax) (v : ref) (h h' : store) :
  transform_X n v h = Return h' ->
  exists d, h !! v = Some d /\
    h' = <[v := {| X := map (scale_row (nmz_min n) (nmz_max n)) (X d); Y := Y d |}]> h.
Proof.
  unfold transform_X. destruct (deref v h) as [|d] eqn:Hd; [discriminate |].
  apply deref_inv in Hd. simpl.
  destruct (nmz_transform n (X d)) as [|m] eqn:Ht; [discriminate |]. simpl.
  intros Hs. apply set_X_inv in Hs as (d0 & Hd0 & _ & ->).
  rewrite Hd in Hd0. inversion Hd0; subst.
  unfold nmz_transform in Ht. destruct (forallb _ (X d0)); inversion Ht. eauto.
Qed.

(** Replacing the array of one object by its image under a row map. *)
Lemma map_rows_only_X (f : vec -> vec) (v : ref) (h : store) (d : CDataset) :
  h !! v = Some d ->
  only_X_changed f v h (<[v := {| X := map f (X d); Y := Y d |}]> h).
Proof.
  intros Hd. exists d, {| X := map f (X d); Y := Y d |}.
  split; [exact Hd |]. split; [apply lookup_insert_eq |].
  split; [reflexivity |]. split; [apply length_map |].
  intros i. simpl. apply list_lookup_fmap.
Qed.

(** ** Normalisation is a change of [X] alone *)

(** C6.  Dividing [X] by a constant and min-max scaling of [X] update the
    dataset object in place, behind the same variable, and change only its
    [X]: the labels [Y], the number of samples and their order stay, row
    [i] of the new array being the rescaled row [i] of the old one. *)
Theorem normalization_changes_only_X (v : ref) (h h' : store) (f : vec -> vec) :
  normalized v h h' f -> only_X_changed f v h h'.
Proof.
  intros [k Hk | n Hn | n Hn].
  - apply idiv_X_inv in Hk as (d & Hd & ->).
    apply (map_rows_only_X (map (fun x => x / k)) v h d Hd).
  - apply fit_transform_X_inv in Hn as (d & m & Hd & Hf & ->).
    apply nmz_fit_transform_unit in Hf as [-> _].
    apply (map_rows_only_X _ v h d Hd).
  - apply transform_X_inv in Hn as (d & Hd & ->).
    apply (map_rows_only_X _ v h d Hd).
Qed.

Lemma normalization_changes_only_X_witness :
  normalized 1%positive {[ 1%positive := pixels ]}
             (<[ 1%positive := scaled_pixels ]> {[ 1%positive := pixels ]})
             (map (fun x => x / 255)) /\
  only_X_changed (map (fun x => x / 255)) 1%positive {[ 1%positive := pixels ]}
             (<[ 1%positive := scaled_pixels ]> {[ 1%positive := pixels ]}).
Proof.
  assert (H : normalized 1%positive {[ 1%positive := pixels ]}
                (<[ 1%positive := scaled_pixels ]> {[ 1%positive := pixels ]})
                (map (fun x => x / 255))).
  { apply by_division. reflexivity. }
  split; [exact H |].
  exact (normalization_changes_only_X 1%positive _ _ _ H).
Defined.

(** ** Which rescalings land in the unit interval *)

Lemma all_within_take (lo hi : Q) (n : nat) (m : matrix) :
  all_within lo hi m = true -> all_within lo hi (take n m) = true.
Proof. rewrite !all_within_spec. apply Forall_take. Qed.

Lemma Nb04_load_unit (loaded : ref) (h : store) (d : CDataset) :
  h !! loaded = Some d ->
  all_within 0 255 (X d) = true ->
  exists ts h', Nb04_load loaded h = Return (ts, h') /\ unit_range ts h'.
Proof.
  intros Hd Hpix. unfold Nb04_load, slice_obj, deref, alloc. rewrite Hd. simpl.
  unfold idiv_X. rewrite lookup_insert_eq. simpl.
  eexists _, _. split; [reflexivity |].
  eexists. split; [apply lookup_insert_eq |]. simpl.
  apply carray_div_unit, all_within_take, Hpix.
Qed.

Lemma Nb06_load_unit (tr ts : ref) (h : store) (d_tr d_ts : CDataset) :
  tr <> ts ->
  h !! tr = Some d_tr -> h !! ts = Some d_ts ->
  all_within 0 255 (X d_tr) = true -> all_within 0 255 (X d_ts) = true ->
  exists h', Nb06_load tr ts h = Return h' /\ unit_range tr h' /\ unit_range ts h'.
Proof.
  intros Hne Htr Hts Ptr Pts. unfold Nb06_load, idiv_X. rewrite Htr. simpl.
  rewrite lookup_insert_ne by congruence. rewrite Hts.
  eexists. split; [reflexivity |]. split.
  - eexists. split; [rewrite lookup_insert_ne by congruence; apply lookup_insert_eq |].
    simpl. apply carray_div_unit, Ptr.
  - eexists. split; [apply lookup_insert_eq |]. simpl. apply carray_div_unit, Pts.
Qed.

Lemma fit_transform_X_unit (v : ref) (h h' : store) (n : CNormalizerMinMax) :
  fit_transform_X v h = Return (n, h') -> unit_range v h'.
Proof.
  intros H. apply fit_transform_X_inv in H as (d & m & Hd & Hf & ->).
  apply nmz_fit_transform_unit in Hf as [_ Hunit].
  eexists. split; [apply lookup_insert_eq | exact Hunit].
Qed.

Lemma normalize_training_unit (tr val ts : ref) (h h' : store) (n : CNormalizerMinMax) :
  tr <> val -> tr <> ts ->
  Nb05.normalize tr val ts h = Return (n, h') -> unit_range tr h'.
Proof.
  intros Hv Ht. unfold Nb05.normalize.
  destruct (fit_transform_X tr h) as [|[n0 h1]] eqn:H1; [discriminate |]. simpl.
  destruct (transform_X n0 val h1) as [|h2] eqn:H2; [discriminate |]. simpl.
  destruct (transform_X n0 ts h2) as [|h3] eqn:H3; [discriminate |]. simpl.
  intros H. inversion H; subst.
  apply fit_transform_X_unit in H1 as (d & Hd & Hunit).
  apply transform_X_inv in H2 as (d2 & _ & ->).
  apply transform_X_inv in H3 as (d3 & _ & ->).
  exists d. split; [| exact Hunit].
  rewrite !lookup_insert_ne by congruence. exact Hd.
Qed.




(** ** Sequencing in a cell *)

Lemma bind_raise {A B : Type} (m : M A) (k : A -> M B) (w w' : world) (e : exn) :
  m w = (Raise e, w') -> bind m k w = (Raise e, w').
Proof. intros H. unfold bind. rewrite H. reflexivity. Qed.

Lemma bind_return {A B : Type} (m : M A) (k : A -> M B) (w w' : world) (a : A) :
  m w = (Return a, w') -> bind m k w = k a w'.
Proof. intros H. unfold bind. rewrite H. reflexivity. Qed.

Lemma rbind_raise {A B : Type} (r : result A) (k : A -> result B) (e : exn) :
  r = Raise e -> rbind r k = Raise e.
Proof. intros ->. reflexivity. Qed.

Lemma keeps_ret {A T : Type} (f : world -> T) (a : A) : keeps f (ret a).
Proof. intros w. reflexivity. Qed.

Lemma keeps_bind {A B T : Type} (f : world -> T) (m : M A) (k : A -> M B) :
  keeps f m -> (forall a, keeps f (k a)) -> keeps f (bind m k).
Proof.
  intros Hm Hk w. unfold bind. specialize (Hm w).
  destruct (m w) as [[e | a] w1]; simpl in *; [exact Hm |].
  rewrite (Hk a w1). exact Hm.
Qed.

Lemma keeps_try_except {T : Type} (f : world -> T) (body handler : M unit) (c : exn -> bool) :
  keeps f body -> keeps f handler -> keeps f (try_except body c handler).
Proof.
  intros Hb Hh w. unfold try_except. specialize (Hb w).
  destruct (body w) as [[e | a] w1]; simpl in *; [| exact Hb].
  destruct (c e); simpl; [| exact Hb]. rewrite (Hh w1). exact Hb.
Qed.

Lemma keeps_unless_exists {T : Type} (f : world -> T) (p : path) (body : M unit) :
  keeps f body -> keeps f (unless_exists p body).
Proof.
  intros Hb w. unfold unless_exists, bind, os_path_exists.
  destruct (negb _); [apply Hb | reflexivity].
Qed.

(** An import changes nothing. *)
Lemma import_world (pkg : string) (w : world) : (import_ pkg w).2 = w.
Proof. unfold import_. destruct (site_packages w !! pkg) as [[e|]|]; reflexivity. Qed.

Lemma import_local_world (dir module : string) (w : world) : (import_local dir module w).2 = w.
Proof. unfold import_local. destruct (fs w !! _) as [[|o]|]; reflexivity. Qed.

Lemma keeps_import {T : Type} (f : world -> T) (pkg : string) : keeps f (import_ pkg).
Proof. intros w. rewrite import_world. reflexivity. Qed.

Lemma keeps_import_local {T : Type} (f : world -> T) (dir module : string) :
  keeps f (import_local dir module).
Proof. intros w. rewrite import_local_world. reflexivity. Qed.

(** What an install may change: the entry of its own package. *)
Lemma pip_install_cases (pkg : string) (w : world) :
  pip_install pkg w = (Return tt, w) \/
  (online w = true /\ site_packages w !! pkg = None /\
   pip_install pkg w =
     (Return tt, mkWorld (cwd w) (fs w) (<[pkg := None]> (site_packages w)) (online w))).
Proof.
  unfold pip_install. destruct (online w) eqn:E; [| left; reflexivity].
  destruct (site_packages w !! pkg); [left; reflexivity | right; auto].
Qed.

Lemma keeps_pip_install_other (pkg q : string) :
  q <> pkg -> keeps (fun w => site_packages w !! q) (pip_install pkg).
Proof.
  intros Hne w. destruct (pip_install_cases pkg w) as [-> | (_ & _ & ->)]; [reflexivity |].
  simpl. apply lookup_insert_ne. congruence.
Qed.

Lemma keeps_pip_install_tree (pkg : string) :
  keeps (fun w => (cwd w, fs w, online w)) (pip_install pkg).
Proof.
  intros w. destruct (pip_install_cases pkg w) as [-> | (_ & _ & ->)]; reflexivity.
Qed.

Lemma keeps_import_or_install_other (pkg target q : string) :
  q <> target -> keeps (fun w => site_packages w !! q) (import_or_install pkg target).
Proof.
  intros Hne. apply keeps_try_except; [apply keeps_import | apply keeps_pip_install_other, Hne].
Qed.

Lemma keeps_import_or_install_tree (pkg target : string) :
  keeps (fun w => (cwd w, fs w, online w)) (import_or_install pkg target).
Proof. apply keeps_try_except; [apply keeps_import | apply keeps_pip_install_tree]. Qed.

(** File operations leave the packages and the network alone. *)
Lemma keeps_os_mkdir_env (p : path) :
  keeps (fun w => (cwd w, site_packages w, online w)) (os_mkdir p).
Proof.
  intros w. unfold os_mkdir.
  destruct (node_at w (cwd w ++ p)); [reflexivity |].
  destruct (node_at w (parent (cwd w ++ p))) as [[|o]|]; reflexivity.
Qed.

Lemma keeps_download_env (id : string) (p : path) :
  keeps (fun w => (cwd w, site_packages w, online w)) (download_gdrive id p).
Proof.
  intros w. unfold download_gdrive. destruct (negb (online w)); [reflexivity |].
  destruct (node_at w (parent (cwd w ++ p))) as [[|o]|]; try reflexivity.
  destruct (node_at w (cwd w ++ p)) as [[|o]|]; reflexivity.
Qed.

Lemma keeps_git_clone_env (name : string) (repo : list (path * node)) :
  keeps (fun w => (site_packages w, online w)) (git_clone name repo).
Proof.
  intros w. unfold git_clone. cbn [snd].
  destruct (online w) eqn:E; [| rewrite E; reflexivity].
  destruct (node_at w (cwd w ++ [name])); cbn; rewrite ?E; reflexivity.
Qed.

Lemma keeps_os_chdir_env (p : path) :
  keeps (fun w => (fs w, site_packages w, online w)) (os_chdir p).
Proof.
  intros w. unfold os_chdir. destruct (node_at w (cwd w ++ p)) as [[|o]|]; reflexivity.
Qed.

(** Projections of what is kept. *)
Lemma keeps_compose {A T U : Type} (g : T -> U) (f : world -> T) (c : M A) :
  keeps f c -> keeps (fun w => g (f w)) c.
Proof. intros H w. rewrite (H w). reflexivity. Qed.

(** ** Running a cell twice *)

Lemma rerun_unchanged (c : M unit) (w : world) : (c w).2 = w -> rerun_same c w.
Proof. unfold rerun_same. intros ->. reflexivity. Qed.

Lemma settled_after (c : M unit) (w : world) :
  rerun_same c w -> (c w).1 = Return tt -> settled c (c w).2.
Proof.
  unfold rerun_same, settled. intros H Hr. rewrite H.
  destruct (c w) as [r w1]. simpl in *. subst. reflexivity.
Qed.

(** A sequence can be run again when its head can, and when the tail, which
    can be run again as well, leaves the head settled. *)
Lemma rerun_seq (m k : M unit) (w : world) :
  rerun_same m w ->
  ((m w).1 = Return tt -> rerun_same k (m w).2 /\ settled m (k (m w).2).2) ->
  rerun_same (m >> k)%cell w.
Proof.
  unfold rerun_same, settled, bind. intros Hm Hk.
  destruct (m w) as [[e | []] w1] eqn:E; simpl in *.
  - rewrite Hm. reflexivity.
  - destruct (Hk eq_refl) as [Hk1 Hk2]. rewrite Hk2. exact Hk1.
Qed.

Lemma import_agree (pkg : string) (w w' : world) :
  site_packages w' !! pkg = site_packages w !! pkg ->
  import_ pkg w' = ((import_ pkg w).1, w').
Proof.
  intros H. unfold import_. rewrite H.
  destruct (site_packages w !! pkg) as [[e|]|]; reflexivity.
Qed.

Lemma settled_import_agree (pkg : string) (w w' : world) :
  site_packages w' !! pkg = site_packages w !! pkg ->
  settled (import_ pkg) w -> settled (import_ pkg) w'.
Proof.
  unfold settled. intros H Hs. rewrite (import_agree pkg w w' H), Hs. reflexivity.
Qed.

Lemma settled_import_local_agree (dir module : string) (w w' : world) :
  fs w' !! (cwd w' ++ [dir; module]) = fs w !! (cwd w ++ [dir; module]) ->
  settled (import_local dir module) w -> settled (import_local dir module) w'.
Proof.
  unfold settled, import_local. intros ->.
  destruct (fs w !! (cwd w ++ [dir; module])) as [[|o]|]; intros H;
    try discriminate H; reflexivity.
Qed.

Lemma pip_settled_agree (pkg : string) (w w' : world) :
  online w' = online w ->
  site_packages w' !! pkg = site_packages w !! pkg ->
  pip_install pkg w = (Return tt, w) -> pip_install pkg w' = (Return tt, w').
Proof.
  intros Ho Hp. unfold pip_install. rewrite Ho, Hp.
  destruct (online w) eqn:Eo; [| reflexivity].
  destruct (site_packages w !! pkg) eqn:Ep; [reflexivity |].
  intros H. exfalso. inversion H as [Hw].
  apply (f_equal (fun x => site_packages x !! pkg)) in Hw. simpl in Hw.
  rewrite lookup_insert_eq in Hw. congruence.
Qed.

Lemma settled_import_or_install_agree (pkg target : string) (w w' : world) :
  online w' = online w ->
  site_packages w' !! pkg = site_packages w !! pkg ->
  site_packages w' !! target = site_packages w !! target ->
  settled (import_or_install pkg target) w -> settled (import_or_install pkg target) w'.
Proof.
  intros Ho Hp Ht. unfold settled, import_or_install, try_except.
  rewrite (import_agree pkg w w' Hp).
  pose proof (import_world pkg w) as Hw.
  destruct (import_ pkg w) as [[e | []] w1]; simpl in *; subst w1; [| reflexivity].
  destruct (is_ImportError e); [| discriminate].
  apply pip_settled_agree; assumption.
Qed.

Lemma rerun_import_or_install (pkg target : string) (w : world) :
  rerun_same (import_or_install pkg target) w.
Proof.
  unfold rerun_same, import_or_install, try_except.
  pose proof (import_world pkg w) as Hw.
  destruct (import_ pkg w) as [[e | []] w1] eqn:Ei; simpl in Hw; subst w1.
  - destruct (is_ImportError e) eqn:Ee.
    + destruct (pip_install_cases target w) as [Hp | (Ho & Hn & Hp)]; rewrite Hp; simpl.
      * rewrite Ei, Ee. exact Hp.
      * set (w2 := mkWorld (cwd w) (fs w) (<[target := None]> (site_packages w)) (online w)).
        assert (Hpip : pip_install target w2 = (Return tt, w2)).
        { unfold pip_install. simpl. rewrite lookup_insert_eq. destruct (online w); reflexivity. }
        destruct (decide (pkg = target)) as [-> | Hne].
        -- unfold import_. simpl. rewrite lookup_insert_eq. reflexivity.
        -- rewrite (import_agree pkg w w2).
           ++ rewrite Ei. simpl. rewrite Ee. exact Hpip.
           ++ simpl. apply lookup_insert_ne. congruence.
    + simpl. rewrite Ei, Ee. reflexivity.
  - simpl. rewrite Ei. reflexivity.
Qed.

(** Guarded steps. *)
Lemma unless_exists_present (p : path) (body : M unit) (w : world) :
  is_Some (node_at w (cwd w ++ p)) -> unless_exists p body w = (Return tt, w).
Proof.
  intros H. unfold unless_exists, bind, os_path_exists.
  rewrite bool_decide_eq_true_2 by exact H. reflexivity.
Qed.

Lemma unless_exists_absent (p : path) (body : M unit) (w : world) :
  node_at w (cwd w ++ p) = None -> unless_exists p body w = body w.
Proof.
  intros H. unfold unless_exists, bind, os_path_exists.
  rewrite bool_decide_eq_false_2; [reflexivity |].
  rewrite H. intros [n Hn]. discriminate Hn.
Qed.

(** A guarded step can be run again when its body, where it changes
    anything, returns with the guarded path in place. *)
Lemma rerun_unless_exists (p : path) (body : M unit) (w : world) :
  ((body w).2 = w \/
   ((body w).1 = Return tt /\ is_Some (node_at (body w).2 (cwd (body w).2 ++ p)))) ->
  rerun_same (unless_exists p body) w.
Proof.
  intros H. destruct (node_at w (cwd w ++ p)) as [n|] eqn:E.
  - apply rerun_unchanged. rewrite unless_exists_present; [reflexivity |].
    rewrite E. eauto.
  - unfold rerun_same. rewrite (unless_exists_absent p body w E).
    destruct H as [H | [Hr Hp]].
    + rewrite H. apply unless_exists_absent, E.
    + rewrite (unless_exists_present p body _ Hp).
      destruct (body w) as [r w1]. simpl in *. subst. reflexivity.
Qed.

Lemma node_at_insert (c q : path) (n : node) (f : gmap (list string) node)
    (s : gmap string (option exn)) (o : bool) :
  is_Some (node_at (mkWorld c (<[q := n]> f) s o) q).
Proof.
  unfold node_at. destruct q; simpl; [eauto |]. rewrite lookup_insert_eq. eauto.
Qed.

Lemma os_mkdir_effect (p : path) (w : world) :
  (os_mkdir p w).2 = w \/
  ((os_mkdir p w).1 = Return tt /\
   is_Some (node_at (os_mkdir p w).2 (cwd (os_mkdir p w).2 ++ p))).
Proof.
  unfold os_mkdir.
  destruct (node_at w (cwd w ++ p)); [left; reflexivity |].
  destruct (node_at w (parent (cwd w ++ p))) as [[|o]|]; try (left; reflexivity).
  right. split; [reflexivity |]. apply node_at_insert.
Qed.

Lemma download_gdrive_effect (id : string) (p : path) (w : world) :
  (download_gdrive id p w).2 = w \/
  ((download_gdrive id p w).1 = Return tt /\
   is_Some (node_at (download_gdrive id p w).2 (cwd (download_gdrive id p w).2 ++ p))).
Proof.
  unfold download_gdrive.
  destruct (negb (online w)); [left; reflexivity |].
  destruct (node_at w (parent (cwd w ++ p))) as [[|o]|]; try (left; reflexivity).
  destruct (node_at w (cwd w ++ p)) as [[|o]|]; try (left; reflexivity);
    right; (split; [reflexivity | apply node_at_insert]).
Qed.

Lemma rerun_cache_weights (id : string) (file : path) (w : world) :
  rerun_same (cache_weights id file) w.
Proof. apply rerun_unless_exists, download_gdrive_effect. Qed.

Lemma rerun_mkdir_if_absent (p : path) (w : world) :
  rerun_same (unless_exists p (os_mkdir p)) w.
Proof. apply rerun_unless_exists, os_mkdir_effect. Qed.

(** ** What the file operations keep *)

Lemma node_at_app (w : world) (c p : path) :
  p <> [] -> node_at w (c ++ p) = fs w !! (c ++ p).
Proof.
  intros Hp. unfold node_at. destruct (c ++ p) eqn:E; [| reflexivity].
  apply app_eq_nil in E as [_ E]. congruence.
Qed.

Lemma keeps_os_mkdir_entry (p q : path) :
  q <> p -> keeps (fun w => fs w !! (cwd w ++ q)) (os_mkdir p).
Proof.
  intros Hne w. unfold os_mkdir.
  destruct (node_at w (cwd w ++ p)); [reflexivity |].
  destruct (node_at w (parent (cwd w ++ p))) as [[|o]|]; try reflexivity.
  simpl. apply lookup_insert_ne. intros E. apply app_inv_head in E. congruence.
Qed.

Lemma keeps_download_entry (id : string) (p q : path) :
  q <> p -> keeps (fun w => fs w !! (cwd w ++ q)) (download_gdrive id p).
Proof.
  intros Hne w. unfold download_gdrive.
  destruct (negb (online w)); [reflexivity |].
  destruct (node_at w (parent (cwd w ++ p))) as [[|o]|]; try reflexivity.
  destruct (node_at w (cwd w ++ p)) as [[|o]|]; try reflexivity;
    simpl; apply lookup_insert_ne; intros E; apply app_inv_head in E; congruence.
Qed.

Lemma keeps_os_mkdir_packages (p : path) : keeps site_packages (os_mkdir p).
Proof. exact (keeps_compose (fun t => t.1.2) _ _ (keeps_os_mkdir_env p)). Qed.

Lemma keeps_download_packages (id : string) (p : path) :
  keeps site_packages (download_gdrive id p).
Proof. exact (keeps_compose (fun t => t.1.2) _ _ (keeps_download_env id p)). Qed.

Create HintDb keeps.
#[local] Hint Resolve keeps_os_mkdir_packages keeps_download_packages : keeps.
#[local] Hint Resolve keeps_ret : keeps.

(** Frame goals over the cells' combinators. *)
Ltac keeps_tac :=
  lazymatch goal with
  | |- keeps _ (bind _ _) => apply keeps_bind; [keeps_tac | intros ?; cbv beta; keeps_tac]
  | |- keeps _ (unless_exists _ _) => apply keeps_unless_exists; keeps_tac
  | |- keeps _ (cache_weights _ _) => unfold cache_weights; keeps_tac
  | |- keeps _ (import_ _) => apply keeps_import
  | |- keeps _ (import_local _ _) => apply keeps_import_local
  | |- keeps (fun w => fs w !! (cwd w ++ _)) (os_mkdir _) =>
      apply keeps_os_mkdir_entry; discriminate
  | |- keeps (fun w => fs w !! (cwd w ++ _)) (download_gdrive _ _) =>
      apply keeps_download_entry; discriminate
  | |- _ => solve [eauto with keeps]
  end.

(** An import in front of a tail that keeps the packages. *)
Lemma rerun_import_then (pkg : string) (k : M unit) :
  keeps site_packages k ->
  (forall w, rerun_same k w) ->
  forall w, rerun_same (import_ pkg >> k)%cell w.
Proof.
  intros Hk Hr w. apply rerun_seq; [apply rerun_unchanged, import_world |].
  intros Hret. split; [apply Hr |].
  apply (settled_import_agree pkg (import_ pkg w).2).
  - rewrite (Hk (import_ pkg w).2). reflexivity.
  - apply settled_after; [apply rerun_unchanged, import_world | exact Hret].
Qed.

(** An import from the working directory in front of a tail that keeps
    the module's file. *)
Lemma rerun_import_local_then (dir module : string) (k : M unit) :
  keeps (fun w => fs w !! (cwd w ++ [dir; module])) k ->
  (forall w, rerun_same k w) ->
  forall w, rerun_same (import_local dir module >> k)%cell w.
Proof.
  intros Hk Hr w. apply rerun_seq; [apply rerun_unchanged, import_local_world |].
  intros Hret. split; [apply Hr |].
  apply (settled_import_local_agree dir module (import_local dir module w).2).
  - exact (Hk (import_local dir module w).2).
  - apply settled_after; [apply rerun_unchanged, import_local_world | exact Hret].
Qed.

Lemma mkdir_if_absent_returns (p : path) (w : world) :
  (unless_exists p (os_mkdir p) w).1 = Return tt ->
  is_Some (node_at (unless_exists p (os_mkdir p) w).2
                   (cwd (unless_exists p (os_mkdir p) w).2 ++ p)).
Proof.
  destruct (node_at w (cwd w ++ p)) as [n|] eqn:E.
  - rewrite unless_exists_present by (rewrite E; eauto). simpl. rewrite E. eauto.
  - rewrite (unless_exists_absent p _ w E). unfold os_mkdir. rewrite E.
    destruct (node_at w (parent (cwd w ++ p))) as [[|o]|]; simpl; intros Hr;
      try discriminate Hr.
    apply node_at_insert.
Qed.

Lemma download_gdrive_cases (id : string) (p : path) (w : world) :
  (download_gdrive id p w).2 = w \/
  (download_gdrive id p w).2 =
    mkWorld (cwd w) (<[cwd w ++ p := File id]> (fs w)) (site_packages w) (online w).
Proof.
  unfold download_gdrive.
  destruct (negb (online w)); [left; reflexivity |].
  destruct (node_at w (parent (cwd w ++ p))) as [[|o]|]; try (left; reflexivity).
  destruct (node_at w (cwd w ++ p)) as [[|o]|]; try (left; reflexivity); right; reflexivity.
Qed.

(** Caching a file leaves every other path as it is. *)
Lemma keeps_cache_weights_node (id : string) (file p : path) :
  file <> p -> keeps (fun w => node_at w (cwd w ++ p)) (cache_weights id file).
Proof.
  intros Hne. unfold cache_weights. apply keeps_unless_exists. intros w.
  destruct (download_gdrive_cases id file w) as [-> | ->]; [reflexivity |].
  unfold node_at. simpl. destruct (cwd w ++ p) eqn:E; [reflexivity |].
  rewrite <- E. apply lookup_insert_ne. intros E'. apply app_inv_head in E'. congruence.
Qed.

Lemma rerun_mkdir_then_cache (p file : path) (id : string) :
  file <> p ->
  forall w, rerun_same (unless_exists p (os_mkdir p) >> cache_weights id file)%cell w.
Proof.
  intros Hne w. apply rerun_seq; [apply rerun_mkdir_if_absent |].
  intros Hret. split; [apply rerun_cache_weights |].
  apply unless_exists_present.
  rewrite (keeps_cache_weights_node id file p Hne _).
  apply mkdir_if_absent_returns, Hret.
Qed.

(** ** The weight cells of lab 04 *)

Lemma rerun_kwta_weights (w : world) : rerun_same Nb04.kwta_weights w.
Proof.
  revert w. unfold Nb04.kwta_weights, Nb04.kwta_file.
  do 4 (apply rerun_import_then; [keeps_tac |]).
  apply rerun_import_local_then; [keeps_tac |].
  apply rerun_mkdir_then_cache. discriminate.
Qed.

Lemma rerun_distilled_weights (w : world) : rerun_same Nb04.distilled_weights w.
Proof.
  revert w. unfold Nb04.distilled_weights.
  apply rerun_import_local_then; [keeps_tac |].
  do 5 (apply rerun_import_then; [keeps_tac |]).
  apply rerun_cache_weights.
Qed.

Lemma rerun_teacher_weights (w : world) : rerun_same Nb04.teacher_weights w.
Proof. apply rerun_cache_weights. Qed.

(** ** The clone step of lab 04 *)

Lemma app_cons_ne_self (t : path) (x : string) (xs : path) : t ++ x :: xs <> t.
Proof.
  intros E. apply (f_equal length) in E. rewrite length_app in E. simpl in E. lia.
Qed.

(** The checkout creates the repository's directory and, in it, [models]. *)
Lemma checkout_root (t : path) (m : gmap (list string) node) :
  checkout t companion_repo m !! t = Some Dir.
Proof.
  unfold checkout, companion_repo. simpl.
  repeat (rewrite lookup_insert_ne by apply app_cons_ne_self).
  apply lookup_insert_eq.
Qed.

Lemma checkout_models (t : path) (m : gmap (list string) node) :
  checkout t companion_repo m !! (t ++ ["models"]) = Some Dir.
Proof. unfold checkout, companion_repo. simpl. apply lookup_insert_eq. Qed.

Lemma clone_body_effect (w : world) :
  repo_dir_has_models w ->
  let body := (unless_exists ["unica_mlsec_labs"]
                 (git_clone "unica_mlsec_labs" companion_repo) >>
               os_chdir ["unica_mlsec_labs"])%cell in
  (body w).2 = w \/
  ((body w).1 = Return tt /\ is_Some (node_at (body w).2 (cwd (body w).2 ++ ["models"]))).
Proof.
  intros H body. subst body.
  destruct (fs w !! (cwd w ++ ["unica_mlsec_labs"])) as [n|] eqn:E.
  - rewrite (bind_return _ _ w w tt).
    2:{ apply unless_exists_present. rewrite node_at_app by discriminate. rewrite E. eauto. }
    unfold os_chdir. rewrite node_at_app by discriminate. rewrite E.
    destruct n as [|o]; [| left; reflexivity].
    right. split; [reflexivity |]. simpl.
    rewrite node_at_app by discriminate. simpl.
    rewrite <- app_assoc. simpl. apply H. rewrite E. eauto.
  - unfold bind.
    rewrite unless_exists_absent by (rewrite node_at_app by discriminate; exact E).
    unfold git_clone. rewrite node_at_app by discriminate. rewrite E.
    destruct (online w) eqn:Eo.
    + unfold os_chdir. rewrite node_at_app by discriminate. simpl.
      rewrite checkout_root.
      right. split; [reflexivity |]. simpl.
      rewrite node_at_app by discriminate. simpl.
      rewrite checkout_models. eauto.
    + unfold os_chdir. rewrite node_at_app by discriminate. rewrite E.
      left. reflexivity.
Qed.

Lemma rerun_clone_step (w : world) :
  repo_dir_has_models w -> rerun_same Nb04.clone_step w.
Proof.
  intros H. unfold Nb04.clone_step. apply rerun_unless_exists.
  apply (clone_body_effect w H).
Qed.

Lemma keeps_clone_step_env : keeps (fun w => (site_packages w, online w)) Nb04.clone_step.
Proof.
  unfold Nb04.clone_step. apply keeps_unless_exists, keeps_bind.
  - apply keeps_unless_exists, keeps_git_clone_env.
  - intros _. exact (keeps_compose (fun t => (t.1.2, t.2)) _ _ (keeps_os_chdir_env _)).
Qed.

Lemma keeps_clone_step_online : keeps online Nb04.clone_step.
Proof. exact (keeps_compose (fun t => t.2) _ _ keeps_clone_step_env). Qed.

Lemma keeps_clone_step_package (q : string) :
  keeps (fun w => site_packages w !! q) Nb04.clone_step.
Proof. exact (keeps_compose (fun t => t.1 !! q) _ _ keeps_clone_step_env). Qed.

Lemma keeps_import_or_install_online (pkg target : string) :
  keeps online (import_or_install pkg target).
Proof. exact (keeps_compose (fun t => t.2) _ _ (keeps_import_or_install_tree pkg target)). Qed.

#[local] Hint Resolve keeps_clone_step_online keeps_clone_step_package
  keeps_import_or_install_online keeps_import_or_install_other : keeps.
#[local] Hint Extern 1 (_ <> _) => discriminate : keeps.

(** A guarded import in front of a tail that keeps the network and the
    two packages involved; [P] is what the tail needs to be run again. *)
Lemma rerun_import_or_install_then (P : world -> Prop) (pkg target : string) (k : M unit) :
  keeps online k ->
  keeps (fun w => site_packages w !! pkg) k ->
  keeps (fun w => site_packages w !! target) k ->
  (forall w, P w -> P (import_or_install pkg target w).2) ->
  (forall w, P w -> rerun_same k w) ->
  forall w, P w -> rerun_same (import_or_install pkg target >> k)%cell w.
Proof.
  intros Ho Hp Ht HP Hr w Hw. apply rerun_seq; [apply rerun_import_or_install |].
  intros Hret. split; [apply Hr, HP, Hw |].
  apply (settled_import_or_install_agree pkg target (import_or_install pkg target w).2).
  - apply Ho.
  - exact (Hp _).
  - exact (Ht _).
  - apply settled_after; [apply rerun_import_or_install | exact Hret].
Qed.

Lemma repo_dir_has_models_kept (pkg target : string) (w : world) :
  repo_dir_has_models w -> repo_dir_has_models (import_or_install pkg target w).2.
Proof.
  unfold repo_dir_has_models.
  pose proof (keeps_import_or_install_tree pkg target w) as H.
  simpl in H. inversion H as [[Hc Hf Ho]]. rewrite Hc, Hf. tauto.
Qed.

Lemma rerun_bootstrap (w : world) :
  repo_dir_has_models w -> rerun_same Nb04.bootstrap w.
Proof.
  revert w. unfold Nb04.bootstrap.
  apply rerun_import_or_install_then;
    [keeps_tac | keeps_tac | keeps_tac | apply repo_dir_has_models_kept |].
  apply rerun_import_or_install_then;
    [keeps_tac | keeps_tac | keeps_tac | apply repo_dir_has_models_kept |].
  apply rerun_import_or_install_then;
    [keeps_tac | keeps_tac | keeps_tac | apply repo_dir_has_models_kept |].
  apply rerun_clone_step.
Qed.

(** With the repository's directory in place nothing is cloned. *)
Lemma clone_step_no_clone (w : world) :
  is_Some (node_at w (cwd w ++ ["unica_mlsec_labs"])) -> fs (Nb04.clone_step w).2 = fs w.
Proof.
  intros H. unfold Nb04.clone_step.
  destruct (node_at w (cwd w ++ ["models"])) as [n|] eqn:E.
  - rewrite unless_exists_present by (rewrite E; eauto). reflexivity.
  - rewrite (unless_exists_absent _ _ w E).
    rewrite (bind_return _ _ w w tt) by (apply unless_exists_present, H).
    pose proof (keeps_os_chdir_env ["unica_mlsec_labs"] w) as Hk.
    simpl in Hk. inversion Hk as [[Hf Hs Ho]]. reflexivity.
Qed.

(** ** Bootstrap and weight caching, run twice *)




(** ** Exceptions *)

Lemma import_or_install_raise (pkg target : string) (w : world) (e : exn) :
  (import_ pkg w).1 = Raise e ->
  import_or_install pkg target w =
    if is_ImportError e then pip_install target w else (Raise e, w).
Proof.
  intros H. unfold import_or_install, try_except.
  pose proof (import_world pkg w) as Hw.
  destruct (import_ pkg w) as [r w1]. simpl in *. subst. reflexivity.
Qed.

Lemma import_or_install_return (pkg target : string) (w : world) :
  (import_ pkg w).1 = Return tt -> import_or_install pkg target w = (Return tt, w).
Proof.
  intros H. unfold import_or_install, try_except.
  pose proof (import_world pkg w) as Hw.
  destruct (import_ pkg w) as [r w1]. simpl in *. subst. reflexivity.
Qed.

Lemma imports_world (w : world) :
  ((import_ "secml" >> import_ "foolbox")%cell w).2 = w.
Proof.
  unfold bind. pose proof (import_world "secml" w) as H1.
  destruct (import_ "secml" w) as [[e | []] w1]; simpl in *; subst; [reflexivity |].
  apply import_world.
Qed.

Lemma Nb05_bootstrap_raise (w : world) (e : exn) :
  ((import_ "secml" >> import_ "foolbox")%cell (pip_install "secml" w).2).1 = Raise e ->
  Nb05.bootstrap w =
    if is_ImportError e
    then (pip_install "secml" >> pip_install "foolbox")%cell (pip_install "secml" w).2
    else (Raise e, (pip_install "secml" w).2).
Proof.
  intros H. unfold Nb05.bootstrap.
  rewrite (bind_return _ _ w (pip_install "secml" w).2 tt) by reflexivity.
  unfold try_except.
  pose proof (imports_world (pip_install "secml" w).2) as Hw.
  destruct ((import_ "secml" >> import_ "foolbox")%cell (pip_install "secml" w).2)
    as [r w1]. simpl in *. subst. reflexivity.
Qed.

Lemma installs_return (w : world) : (Nb06.installs w).1 = Return tt.
Proof. reflexivity. Qed.

Lemma Nb06_bootstrap_raise (w : world) (e : exn) :
  (import_ "secml" (Nb06.installs w).2).1 = Raise e ->
  Nb06.bootstrap w = (Raise e, (Nb06.installs w).2).
Proof.
  intros H. unfold Nb06.bootstrap.
  rewrite (bind_return _ _ w (Nb06.installs w).2 tt).
  2:{ pose proof (installs_return w) as Hr.
      destruct (Nb06.installs w) as [r w1]. simpl in *. subst. reflexivity. }
  apply bind_raise.
  pose proof (import_world "secml" (Nb06.installs w).2) as Hw.
  destruct (import_ "secml" (Nb06.installs w).2) as [r w1]. simpl in *. subst. reflexivity.
Qed.

Lemma Nb04_bootstrap_clone_raise (w w1 w2 w3 w4 : world) (e : exn) :
  import_or_install "secml" "secml" w = (Return tt, w1) ->
  import_or_install "foolbox" "foolbox" w1 = (Return tt, w2) ->
  import_or_install "robustbench" "robustbench" w2 = (Return tt, w3) ->
  Nb04.clone_step w3 = (Raise e, w4) ->
  Nb04.bootstrap w = (Raise e, w4).
Proof.
  intros H1 H2 H3 H4. unfold Nb04.bootstrap.
  rewrite (bind_return _ _ _ _ _ H1), (bind_return _ _ _ _ _ H2), (bind_return _ _ _ _ _ H3).
  exact H4.
Qed.



(** ** The attack stays within its budget *)

Section AttackFacts.

Import Attack.

Variable a : CFoolboxPGDLinf.
Hypothesis budget : 0 <= epsilons a.

Lemma close_refl (x0 : vec) : close a x0 x0.
Proof. unfold close. induction x0; constructor; [lra | assumption]. Qed.

Lemma close_linf (x0 x : vec) : close a x0 x -> linf_dist x0 x <= epsilons a.
Proof.
  unfold close, linf_dist. induction 1 as [|o v x0 x [H1 H2] _ IH]; [exact budget |].
  cbn [zip_with foldr].
  apply qmax_lub; [| exact IH]. apply (proj2 (Qabs_Qle_condition _ _)). split; lra.
Qed.

(** The projection lands in the budget and in the bounds, whatever point
    it is given. *)
Lemma project_spec (x0 x : vec) :
  in_box (lb a) (ub a) x0 = true ->
  length x = length x0 ->
  length (project a x0 x) = length x0 /\
  in_box (lb a) (ub a) (project a x0 x) = true /\
  close a x0 (project a x0 x).
Proof.
  unfold project, close. revert x.
  induction x0 as [|o x0 IH]; intros [|v x] Hbox Hlen; simpl in *; try discriminate.
  - repeat split. constructor.
  - apply andb_true_iff in Hbox as [Ho Hbox]. apply within_spec in Ho as [Hlo Hhi].
    destruct (IH x Hbox) as (L & B & C); [lia |].
    assert (Hc : - epsilons a <= clip (- epsilons a) (epsilons a) (v - o)
                 /\ clip (- epsilons a) (epsilons a) (v - o) <= epsilons a).
    { apply clip_within. lra. }
    destruct (clip_within (lb a) (ub a) (o + clip (- epsilons a) (epsilons a) (v - o)))
      as [B1 B2]; [lra |].
    destruct (clip_closer (lb a) (ub a) o (o + clip (- epsilons a) (epsilons a) (v - o))
                          (epsilons a)) as [C1 C2]; try lra.
    split; [f_equal; exact L |]. split.
    + apply andb_true_iff. split; [apply within_spec; split; assumption | exact B].
    + constructor; [split; assumption | exact C].
Qed.

Lemma pgd_step_spec (y : Z) (x0 x : vec) :
  in_box (lb a) (ub a) x0 = true ->
  length x = length x0 ->
  within_budget a x0 (pgd_step a y x0 x).
Proof.
  intros Hbox Hlen. unfold pgd_step, within_budget.
  destruct (project_spec x0 (imap (fun j v => v + abs_stepsize a *
              match y_target a with
              | Some t => - loss_gradient (classifier a) x t j
              | None => loss_gradient (classifier a) x y j
              end) x)) as (L & B & C); [exact Hbox | rewrite length_imap; exact Hlen |].
  split; [exact L |]. split; [apply close_linf, C | exact B].
Qed.

Lemma pgd_iterate_spec (y : Z) (x0 : vec) (n : nat) (x : vec) :
  in_box (lb a) (ub a) x0 = true ->
  length x = length x0 ->
  Forall (within_budget a x0) (pgd_iterate a y x0 x n).
Proof.
  intros Hbox. revert x. induction n as [|n IH]; intros x Hlen; simpl; [constructor |].
  pose proof (pgd_step_spec y x0 x Hbox Hlen) as Hs.
  constructor; [exact Hs |]. apply IH. apply Hs.
Qed.

Lemma pgd_start_spec (x0 : vec) :
  in_box (lb a) (ub a) x0 = true -> within_budget a x0 (pgd_start a x0).
Proof.
  intros Hbox. unfold pgd_start, within_budget. destruct (random_start a).
  - destruct (project_spec x0 (imap (fun j v => v + start_noise a j) x0))
      as (L & B & C); [exact Hbox | apply length_imap |].
    split; [exact L |]. split; [apply close_linf, C | exact B].
  - split; [reflexivity |]. split; [apply close_linf, close_refl | exact Hbox].
Qed.

(** Every point of the path, the adversarial point among them, respects
    the budget. *)
Lemma pgd_path_spec (y : Z) (x0 : vec) :
  in_box (lb a) (ub a) x0 = true -> Forall (within_budget a x0) (pgd_path a y x0).
Proof.
  intros Hbox. unfold pgd_path.
  pose proof (pgd_start_spec x0 Hbox) as Hs.
  constructor; [exact Hs |]. apply pgd_iterate_spec; [exact Hbox | apply Hs].
Qed.

Lemma pgd_adv_last (y : Z) (x0 : vec) : last (pgd_path a y x0) = Some (pgd_adv a y x0).
Proof.
  unfold pgd_adv. destruct (last (pgd_path a y x0)) as [z|] eqn:E; [reflexivity |].
  unfold pgd_path in E. rewrite last_cons in E. destruct (last _); discriminate.
Qed.

Lemma pgd_adv_spec (y : Z) (x0 : vec) :
  in_box (lb a) (ub a) x0 = true -> within_budget a x0 (pgd_adv a y x0).
Proof.
  intros Hbox. pose proof (pgd_path_spec y x0 Hbox) as Hp.
  rewrite Forall_forall in Hp. apply Hp.
  apply last_Some_elem_of, pgd_adv_last.
Qed.

Lemma pgd_path_length (y : Z) (x0 : vec) : length (pgd_path a y x0) = S (steps a).
Proof.
  unfold pgd_path. simpl. f_equal.
  generalize (pgd_start a x0). induction (steps a) as [|n IH]; intros x; simpl; [reflexivity |].
  f_equal. apply IH.
Qed.

Lemma advs_spec (x : matrix) (y : list Z) :
  length x = length y ->
  all_within (lb a) (ub a) x = true ->
  Forall2 (within_budget a) x (zip_with (pgd_adv a) y x).
Proof.
  revert y. induction x as [|x0 x IH]; intros [|y0 y] Hlen Hbox; simpl in *;
    try discriminate; [constructor |].
  apply andb_true_iff in Hbox as [H0 Hbox].
  constructor; [apply pgd_adv_spec, H0 | apply IH; [lia | exact Hbox]].
Qed.

End AttackFacts.

Lemma run_inv (a : Attack.CFoolboxPGDLinf) (x : matrix) (y : list Z)
    (out : Attack.run_output) (a' : Attack.CFoolboxPGDLinf) :
  Attack.run a x y = Return (out, a') ->
  length x = length y /\ all_within (Attack.lb a) (Attack.ub a) x = true /\
  Attack.adv_ds out = {| X := zip_with (Attack.pgd_adv a) y x; Y := y |}.
Proof.
  unfold Attack.run.
  destruct (Nat.eqb (length x) (length y)) eqn:El; simpl; [| discriminate].
  destruct (all_within (Attack.lb a) (Attack.ub a) x) eqn:Eb; simpl; [| discriminate].
  intros H. inversion H; subst. simpl.
  apply Nat.eqb_eq in El. auto.
Qed.

(** C1.  Whatever the classifier, its gradients, the step size, the number
    of steps, the random start and the target class: when the attack is
    configured with a budget [epsilons >= 0] and its run returns, every
    adversarial input it returns has the features of the original input,
    lies at most [epsilons] from it in the attack's norm, and stays inside
    the feature bounds [lb] and [ub]. *)
Theorem adversarial_within_budget (a : Attack.CFoolboxPGDLinf) (x : matrix) (y : list Z)
    (out : Attack.run_output) (a' : Attack.CFoolboxPGDLinf) :
  0 <= Attack.epsilons a ->
  Attack.run a x y = Return (out, a') ->
  Forall2 (Attack.within_budget a) x (X (Attack.adv_ds out)).
Proof.
  intros Heps Hrun. apply run_inv in Hrun as (Hlen & Hbox & ->). simpl.
  apply advs_spec; assumption.
Qed.

Lemma adversarial_within_budget_witness :
  0 <= Attack.epsilons (Attack.lab06_attack Attack.constant_classifier) /\
  exists out a',
    Attack.run (Attack.lab06_attack Attack.constant_classifier) Attack.batch_inside [6%Z]
      = Return (out, a') /\
    Forall2 (Attack.within_budget (Attack.lab06_attack Attack.constant_classifier))
            Attack.batch_inside (X (Attack.adv_ds out)).
Proof.
  assert (Heps : 0 <= Attack.epsilons (Attack.lab06_attack Attack.constant_classifier)).
  { vm_compute. discriminate. }
  split; [exact Heps |].
  destruct (Attack.run (Attack.lab06_attack Attack.constant_classifier)
                       Attack.batch_inside [6%Z]) as [e | [out a']] eqn:Hrun.
  - exfalso. vm_compute in Hrun. discriminate Hrun.
  - exists out, a'. split; [reflexivity |].
    exact (adversarial_within_budget _ _ _ out a' Heps Hrun).
Defined.

(** ** What [run] returns *)

Lemma last_zip_with_same {A B C : Type} (f : A -> B -> C) (l : list A) (k : list B) :
  length l = length k ->
  last (zip_with f l k) =
    match last l, last k with
    | Some x, Some y => Some (f x y)
    | _, _ => None
    end.
Proof.
  intros Hlen. rewrite !last_lookup, lookup_zip_with.
  rewrite length_zip_with_l_eq by exact Hlen. rewrite <- Hlen.
  destruct (l !! Init.Nat.pred (length l)); simpl; [| reflexivity].
  destruct (k !! Init.Nat.pred (length l)); reflexivity.
Qed.




(** ** The evaluation cells *)

Lemma performance_score_returns (y_true y_pred : list Z) :
  length y_pred = length y_true -> exists s, performance_score y_true y_pred = Return s.
Proof.
  intros H. unfold performance_score.
  rewrite (proj2 (Nat.eqb_eq _ _) (eq_sym H)). simpl.
  destruct y_true; eauto.
Qed.



(** ** Seeded data preparation *)


(** Without a seed the draw follows the process-wide generator. *)
Lemma unseeded_draw_follows_global :
  let L := mkSampling Z (fun seed => seed)
             (fun _ _ _ _ g => ({| X := [[inject_Z g]]; Y := [0%Z] |}, (g + 1)%Z))
             (fun _ _ d g => (Return (d, d), g)) in
  (with_random_state (L := L) None (make_blobs L 1 1 [] 1) 1%Z).1
  <> (with_random_state (L := L) None (make_blobs L 1 1 [] 1) 2%Z).1.
Proof. simpl. intros E. inversion E. Qed.

(* ===================================================================== *)
(** * Part III: further properties of the cells *)
(* ===================================================================== *)

(** ** Outcomes of a sequence *)

Lemma bind_return_inv {A B : Type} (m : M A) (k : A -> M B) (w w' : world) (b : B) :
  bind m k w = (Return b, w') ->
  exists a w1, m w = (Return a, w1) /\ k a w1 = (Return b, w').
Proof.
  unfold bind. destruct (m w) as [[e | a] w1]; intros H; [discriminate H |]. eauto.
Qed.

Lemma bind_raise_inv {A B : Type} (m : M A) (k : A -> M B) (w w' : world) (e : exn) :
  bind m k w = (Raise e, w') ->
  m w = (Raise e, w') \/ exists a w1, m w = (Return a, w1) /\ k a w1 = (Raise e, w').
Proof.
  unfold bind. destruct (m w) as [[e0 | a] w1]; intros H; [left | right; eauto].
  inversion H. reflexivity.
Qed.

Lemma import_return_inv (pkg : string) (w w' : world) :
  import_ pkg w = (Return tt, w') -> w' = w.
Proof. intros H. rewrite <- (import_world pkg w), H. reflexivity. Qed.

Lemma import_local_return_inv (dir module : string) (w w' : world) :
  import_local dir module w = (Return tt, w') -> w' = w.
Proof. intros H. rewrite <- (import_local_world dir module w), H. reflexivity. Qed.

(** ** Weight cells: what a return guarantees *)

Lemma download_gdrive_returns (id : string) (p : path) (w w' : world) :
  download_gdrive id p w = (Return tt, w') -> is_Some (node_at w' (cwd w' ++ p)).
Proof.
  unfold download_gdrive. destruct (negb (online w)); [discriminate |].
  destruct (node_at w (parent (cwd w ++ p))) as [[|o]|]; try discriminate.
  destruct (node_at w (cwd w ++ p)) as [[|o]|]; try discriminate;
    intros H; inversion H; subst; apply node_at_insert.
Qed.

Lemma cache_weights_returns (id : string) (file : path) (w w' : world) :
  cache_weights id file w = (Return tt, w') -> is_Some (node_at w' (cwd w' ++ file)).
Proof.
  unfold cache_weights. destruct (node_at w (cwd w ++ file)) as [n|] eqn:E.
  - rewrite unless_exists_present by (rewrite E; eauto).
    intros H. inversion H; subst. rewrite E. eauto.
  - rewrite (unless_exists_absent _ _ w E). apply download_gdrive_returns.
Qed.

(** Strip the imports in front of a cell that returned. *)
Ltac strip_imports H :=
  repeat match type of H with
  | bind (import_ _) _ _ = (Return _, _) =>
      let a := fresh "a" in let w1 := fresh "w" in let Hi := fresh "Hi" in
      apply bind_return_inv in H as (a & w1 & Hi & H);
      destruct a; apply import_return_inv in Hi; subst w1
  | bind (import_local _ _) _ _ = (Return _, _) =>
      let a := fresh "a" in let w1 := fresh "w" in let Hi := fresh "Hi" in
      apply bind_return_inv in H as (a & w1 & Hi & H);
      destruct a; apply import_local_return_inv in Hi; subst w1
  end.



(** ** Weight cells: entries are only added *)

Lemma extends_refl (w : world) : extends w w.
Proof. repeat split. intros p n H. exact H. Qed.

Lemma extends_trans (w1 w2 w3 : world) : extends w1 w2 -> extends w2 w3 -> extends w1 w3.
Proof.
  intros (C1 & S1 & O1 & F1) (C2 & S2 & O2 & F2).
  repeat split; try congruence. intros p n H. apply F2, F1, H.
Qed.

Lemma extends_bind {A B : Type} (m : M A) (k : A -> M B) :
  (forall w, extends w (m w).2) ->
  (forall a w, extends w (k a w).2) ->
  forall w, extends w (bind m k w).2.
Proof.
  intros Hm Hk w. unfold bind. specialize (Hm w).
  destruct (m w) as [[e | a] w1]; simpl in *; [exact Hm |].
  eapply extends_trans; [exact Hm | apply Hk].
Qed.

Lemma extends_insert_absent (w : world) (p : path) (n : node) :
  fs w !! p = None ->
  extends w (mkWorld (cwd w) (<[p := n]> (fs w)) (site_packages w) (online w)).
Proof.
  intros Habs. repeat split. intros q m Hq. simpl.
  rewrite lookup_insert_ne; [exact Hq |]. intros ->. congruence.
Qed.

Lemma node_at_None (w : world) (p : path) : node_at w p = None -> fs w !! p = None.
Proof. unfold node_at. destruct p; [discriminate | trivial]. Qed.

Lemma extends_os_mkdir (p : path) (w : world) : extends w (os_mkdir p w).2.
Proof.
  unfold os_mkdir. destruct (node_at w (cwd w ++ p)) eqn:E; [apply extends_refl |].
  destruct (node_at w (parent (cwd w ++ p))) as [[|o]|]; try apply extends_refl.
  apply extends_insert_absent, node_at_None, E.
Qed.

Lemma extends_unless_exists (p : path) (body : M unit) :
  (forall w, node_at w (cwd w ++ p) = None -> extends w (body w).2) ->
  forall w, extends w (unless_exists p body w).2.
Proof.
  intros Hb w. destruct (node_at w (cwd w ++ p)) as [n|] eqn:E.
  - rewrite unless_exists_present by (rewrite E; eauto). apply extends_refl.
  - rewrite (unless_exists_absent p body w E). apply Hb, E.
Qed.

(** The guard is what keeps the download from writing over a file. *)
Lemma extends_cache_weights (id : string) (file : path) (w : world) :
  extends w (cache_weights id file w).2.
Proof.
  unfold cache_weights. apply extends_unless_exists. clear w. intros w E.
  destruct (download_gdrive_cases id file w) as [-> | ->]; [apply extends_refl |].
  apply extends_insert_absent, node_at_None, E.
Qed.

Lemma extends_import (pkg : string) (w : world) : extends w (import_ pkg w).2.
Proof. rewrite import_world. apply extends_refl. Qed.

Lemma extends_import_local (dir module : string) (w : world) :
  extends w (import_local dir module w).2.
Proof. rewrite import_local_world. apply extends_refl. Qed.

Ltac extends_tac :=
  lazymatch goal with
  | |- forall w, extends w (bind _ _ w).2 =>
      apply extends_bind; [extends_tac | intros ?; cbv beta; extends_tac]
  | |- forall w, extends w (import_ _ w).2 => intros ?; apply extends_import
  | |- forall w, extends w (import_local _ _ w).2 => intros ?; apply extends_import_local
  | |- forall w, extends w (cache_weights _ _ w).2 => intros ?; apply extends_cache_weights
  | |- forall w, extends w (unless_exists _ (os_mkdir _) w).2 =>
      apply extends_unless_exists; intros ? _; apply extends_os_mkdir
  end.

(** X2.  The weight cells of lab 04 only add to the file tree: whatever
    entry was there stays as it was (no cached file is written over, nothing
    is removed), and the working directory, the packages and the network
    are left alone; this holds whether the cell returns or raises. *)
Theorem weight_cells_only_add (w : world) :
  extends w (Nb04.kwta_weights w).2 /\
  extends w (Nb04.distilled_weights w).2 /\
  extends w (Nb04.teacher_weights w).2.
Proof.
  split; [| split]; revert w.
  - unfold Nb04.kwta_weights. extends_tac.
  - unfold Nb04.distilled_weights. extends_tac.
  - unfold Nb04.teacher_weights. extends_tac.
Qed.

(** ** The bootstrap cell: existing files survive *)

Lemma checkout_lookup_other (target p : path) (repo : list (path * node))
    (m : gmap (list string) node) :
  p <> target ->
  (forall e, e ∈ repo -> p <> target ++ e.1) ->
  checkout target repo m !! p = m !! p.
Proof.
  intros Ht. unfold checkout. induction repo as [|e repo IH]; intros Hr; simpl.
  - apply lookup_insert_ne. congruence.
  - rewrite lookup_insert_ne.
    + apply IH. intros e' He'. apply Hr. right. exact He'.
    + intros E. apply (Hr e); [left | symmetry; exact E].
Qed.

Lemma fs_kept_refl (w : world) : fs_kept w w.
Proof. intros p n H. exact H. Qed.

Lemma fs_kept_eq (w w' : world) : fs w' = fs w -> fs_kept w w'.
Proof. intros E p n H. rewrite E. exact H. Qed.

Lemma fs_kept_trans (w1 w2 w3 : world) : fs_kept w1 w2 -> fs_kept w2 w3 -> fs_kept w1 w3.
Proof. intros H1 H2 p n H. apply H2, H1, H. Qed.

(** In a file tree closed under prefixes, a clone into an absent directory
    meets no entry. *)
Lemma fs_kept_git_clone (name : string) (repo : list (path * node)) (w : world) :
  prefix_closed w -> fs_kept w (git_clone name repo w).2.
Proof.
  intros Hpc. unfold git_clone. cbn [snd].
  destruct (online w); [| apply fs_kept_refl].
  destruct (node_at w (cwd w ++ [name])) eqn:E; [apply fs_kept_refl |].
  apply node_at_None in E. intros p n Hp. cbn [fs].
  rewrite checkout_lookup_other; [exact Hp | congruence |].
  intros e _ ->.
  destruct (Hpc (cwd w ++ [name]) e.1) as [n' Hn'].
  - intros E'. apply app_eq_nil in E' as [_ E']. discriminate E'.
  - rewrite Hp. eauto.
  - congruence.
Qed.

Lemma fs_kept_clone_step (w : world) : prefix_closed w -> fs_kept w (Nb04.clone_step w).2.
Proof.
  intros Hpc. unfold Nb04.clone_step.
  destruct (node_at w (cwd w ++ ["models"])) as [n|] eqn:E.
  - rewrite unless_exists_present by (rewrite E; eauto). apply fs_kept_refl.
  - rewrite (unless_exists_absent _ _ w E). unfold bind.
    assert (H1 : fs_kept w (unless_exists ["unica_mlsec_labs"]
                              (git_clone "unica_mlsec_labs" companion_repo) w).2).
    { destruct (node_at w (cwd w ++ ["unica_mlsec_labs"])) as [n|] eqn:E2.
      - rewrite unless_exists_present by (rewrite E2; eauto). apply fs_kept_refl.
      - rewrite (unless_exists_absent _ _ w E2). apply fs_kept_git_clone, Hpc. }
    destruct (unless_exists ["unica_mlsec_labs"] _ w) as [[e | []] w1]; [exact H1 |].
    cbn [snd] in H1. eapply fs_kept_trans; [exact H1 |].
    apply fs_kept_eq.
    pose proof (keeps_os_chdir_env ["unica_mlsec_labs"] w1) as Hk.
    simpl in Hk. inversion Hk. reflexivity.
Qed.

Lemma import_or_install_fs (pkg target : string) (w : world) :
  fs (import_or_install pkg target w).2 = fs w /\
  cwd (import_or_install pkg target w).2 = cwd w /\
  online (import_or_install pkg target w).2 = online w.
Proof.
  pose proof (keeps_import_or_install_tree pkg target w) as H.
  simpl in H. inversion H as [[Hc Hf Ho]]. auto.
Qed.

Lemma prefix_closed_fs (w w' : world) : fs w' = fs w -> prefix_closed w -> prefix_closed w'.
Proof. unfold prefix_closed. intros ->. trivial. Qed.

Lemma fs_kept_after_install (pkg target : string) (k : M unit) :
  (forall w, prefix_closed w -> fs_kept w (k w).2) ->
  forall w, prefix_closed w -> fs_kept w ((import_or_install pkg target >> k)%cell w).2.
Proof.
  intros Hk w Hpc. unfold bind.
  destruct (import_or_install_fs pkg target w) as (Hf & _ & _).
  destruct (import_or_install pkg target w) as [[e | []] w1]; cbn [snd] in *.
  - apply fs_kept_eq, Hf.
  - eapply fs_kept_trans; [apply fs_kept_eq, Hf |].
    apply Hk. exact (prefix_closed_fs w w1 Hf Hpc).
Qed.


Lemma prefix_closed_fresh : prefix_closed (fresh_session true).
Proof.
  intros p q Hp [n Hn]. unfold fresh_session in *. cbn [fs] in *.
  apply lookup_insert_Some in Hn as [[Hk _] | [_ Hn]]; [| rewrite lookup_empty in Hn; discriminate].
  destruct p as [|x p]; [congruence |]. destruct p as [|y p]; [| discriminate Hk].
  simpl in Hk. inversion Hk; subst. exists Dir. reflexivity.
Qed.


(** ** The bootstrap cells: how they can end *)

Lemma pip_install_returns (pkg : string) (w : world) : (pip_install pkg w).1 = Return tt.
Proof. reflexivity. Qed.

Lemma import_or_install_raise_inv (pkg target : string) (w w' : world) (e : exn) :
  import_or_install pkg target w = (Raise e, w') -> is_ImportError e = false.
Proof.
  unfold import_or_install, try_except.
  destruct (import_ pkg w) as [[e0 | []] w1]; [| discriminate].
  destruct (is_ImportError e0) eqn:E.
  - pose proof (pip_install_returns target w1) as Hr.
    destruct (pip_install target w1) as [r w2]. simpl in Hr. subst. discriminate.
  - intros H. inversion H; subst. exact E.
Qed.

Lemma os_chdir_raise_inv (p : path) (w w' : world) (e : exn) :
  os_chdir p w = (Raise e, w') -> is_ImportError e = false.
Proof.
  unfold os_chdir. destruct (node_at w (cwd w ++ p)) as [[|o]|];
    intros H; inversion H; reflexivity.
Qed.

Lemma git_clone_returns (name : string) (repo : list (path * node)) (w : world) :
  (git_clone name repo w).1 = Return tt.
Proof. reflexivity. Qed.

Lemma unless_exists_raise_inv (p : path) (body : M unit) (w w' : world) (e : exn) :
  unless_exists p body w = (Raise e, w') -> body w = (Raise e, w').
Proof.
  destruct (node_at w (cwd w ++ p)) as [n|] eqn:E.
  - rewrite unless_exists_present by (rewrite E; eauto). discriminate.
  - rewrite (unless_exists_absent p body w E). trivial.
Qed.

Lemma clone_step_raise_inv (w w' : world) (e : exn) :
  Nb04.clone_step w = (Raise e, w') -> is_ImportError e = false.
Proof.
  unfold Nb04.clone_step. intros H. apply unless_exists_raise_inv in H.
  apply bind_raise_inv in H as [H | (a & w1 & _ & H)].
  - apply unless_exists_raise_inv in H.
    pose proof (git_clone_returns "unica_mlsec_labs" companion_repo w) as Hr.
    rewrite H in Hr. discriminate Hr.
  - exact (os_chdir_raise_inv _ _ _ _ H).
Qed.

(** X4.  The bootstrap cells of labs 04 and 05 never end with an
    [ImportError] (nor with its subclass [ModuleNotFoundError]): each import
    stands under the [try], and the install that answers it does not raise.
    Lab 06 imports without a [try] and does end that way, as in a session
    without network and without the packages. *)
Theorem guarded_bootstrap_never_import_error :
  (forall w w' e, Nb04.bootstrap w = (Raise e, w') -> is_ImportError e = false) /\
  (forall w w' e, Nb05.bootstrap w = (Raise e, w') -> is_ImportError e = false) /\
  Nb06.bootstrap (fresh_session false) = (Raise ModuleNotFoundError, fresh_session false).
Proof.
  split; [| split; [| reflexivity]].
  - intros w w' e H. unfold Nb04.bootstrap in H.
    apply bind_raise_inv in H as [H | (a1 & w1 & _ & H)];
      [exact (import_or_install_raise_inv _ _ _ _ _ H) |].
    apply bind_raise_inv in H as [H | (a2 & w2 & _ & H)];
      [exact (import_or_install_raise_inv _ _ _ _ _ H) |].
    apply bind_raise_inv in H as [H | (a3 & w3 & _ & H)];
      [exact (import_or_install_raise_inv _ _ _ _ _ H) |].
    exact (clone_step_raise_inv _ _ _ H).
  - intros w w' e H. unfold Nb05.bootstrap in H.
    apply bind_raise_inv in H as [H | (a1 & w1 & _ & H)].
    + pose proof (pip_install_returns "secml" w) as Hr. rewrite H in Hr. discriminate Hr.
    + unfold try_except in H.
      destruct ((import_ "secml" >> import_ "foolbox")%cell w1) as [[e0 | []] w2];
        [| discriminate].
      destruct (is_ImportError e0) eqn:E.
      * apply bind_raise_inv in H as [H | (a2 & w3 & _ & H)].
        -- pose proof (pip_install_returns "secml" w2) as Hr. rewrite H in Hr. discriminate Hr.
        -- pose proof (pip_install_returns "foolbox" w3) as Hr. rewrite H in Hr.
           discriminate Hr.
      * inversion H; subst. exact E.
Qed.

Lemma guarded_bootstrap_never_import_error_witness :
  Nb04.bootstrap broken_session = (Raise (OtherError "RuntimeError"), broken_session) /\
  is_ImportError (OtherError "RuntimeError") = false.
Proof.
  assert (H : Nb04.bootstrap broken_session
              = (Raise (OtherError "RuntimeError"), broken_session)) by reflexivity.
  split; [exact H |].
  exact (proj1 guarded_bootstrap_never_import_error _ _ _ H).
Defined.

(** ** The bootstrap cell in a new session *)

Lemma import_or_install_offline (pkgs : list string) (pkg target : string) (w : world) :
  online w = false -> packages_sound pkgs w -> pkg ∈ pkgs ->
  import_or_install pkg target w = (Return tt, w).
Proof.
  intros Ho Hs Hin. unfold import_or_install, try_except, import_, pip_install.
  destruct (site_packages w !! pkg) as [[e|]|] eqn:E; [| reflexivity |].
  - rewrite (Hs pkg e Hin E), Ho. reflexivity.
  - simpl. rewrite Ho. reflexivity.
Qed.

(** X5.  Without network, in a directory that holds neither [models] nor
    [unica_mlsec_labs], the bootstrap cell of lab 04 ends with
    [FileNotFoundError] and has changed nothing: the installs and the clone
    fail without raising, and [os.chdir] is the first to notice. *)
Theorem bootstrap_offline_fails_on_chdir (w : world) :
  online w = false ->
  packages_sound ["secml"; "foolbox"; "robustbench"] w ->
  node_at w (cwd w ++ ["models"]) = None ->
  node_at w (cwd w ++ ["unica_mlsec_labs"]) = None ->
  Nb04.bootstrap w = (Raise FileNotFoundError, w).
Proof.
  intros Ho Hs Hm Hu. unfold Nb04.bootstrap.
  rewrite (bind_return _ _ w w tt)
    by (apply (import_or_install_offline _ _ _ _ Ho Hs); set_solver).
  rewrite (bind_return _ _ w w tt)
    by (apply (import_or_install_offline _ _ _ _ Ho Hs); set_solver).
  rewrite (bind_return _ _ w w tt)
    by (apply (import_or_install_offline _ _ _ _ Ho Hs); set_solver).
  unfold Nb04.clone_step. rewrite (unless_exists_absent _ _ w Hm).
  rewrite (bind_return _ _ w w tt).
  - unfold os_chdir. rewrite Hu. reflexivity.
  - rewrite (unless_exists_absent _ _ w Hu). unfold git_clone. rewrite Ho. reflexivity.
Qed.

Lemma bootstrap_offline_fails_on_chdir_witness :
  online (fresh_session false) = false /\
  packages_sound ["secml"; "foolbox"; "robustbench"] (fresh_session false) /\
  node_at (fresh_session false) (cwd (fresh_session false) ++ ["models"]) = None /\
  node_at (fresh_session false) (cwd (fresh_session false) ++ ["unica_mlsec_labs"]) = None /\
  Nb04.bootstrap (fresh_session false) = (Raise FileNotFoundError, fresh_session false).
Proof.
  assert (H1 : online (fresh_session false) = false) by reflexivity.
  assert (H2 : packages_sound ["secml"; "foolbox"; "robustbench"] (fresh_session false)).
  { intros pkg e _ H. discriminate H. }
  assert (H3 : node_at (fresh_session false) (cwd (fresh_session false) ++ ["models"]) = None)
    by reflexivity.
  assert (H4 : node_at (fresh_session false)
                       (cwd (fresh_session false) ++ ["unica_mlsec_labs"]) = None)
    by reflexivity.
  repeat (split; [assumption |]).
  exact (bootstrap_offline_fails_on_chdir _ H1 H2 H3 H4).
Defined.

Lemma companion_repo_NoDup : NoDup (companion_repo.*1).
Proof. apply (bool_decide_unpack _). vm_compute. exact I. Qed.

Lemma checkout_lookup_entry (t p : path) (n : node) (repo : list (path * node))
    (m : gmap (list string) node) :
  NoDup (repo.*1) -> (p, n) ∈ repo -> checkout t repo m !! (t ++ p) = Some n.
Proof.
  unfold checkout. induction repo as [|e repo IH]; intros Hnd Hin.
  - inversion Hin.
  - simpl in *. apply NoDup_cons in Hnd as [Hnotin Hnd].
    apply elem_of_cons in Hin as [<- | Hin]; [apply lookup_insert_eq |].
    rewrite lookup_insert_ne; [apply IH; assumption |].
    intros E. apply app_inv_head in E. apply Hnotin. rewrite E.
    apply (list_elem_of_fmap_2 fst) in Hin. exact Hin.
Qed.

Lemma import_or_install_online (pkg : string) (w : world) :
  online w = true ->
  (forall e, site_packages w !! pkg = Some (Some e) -> is_ImportError e = true) ->
  exists w1,
    import_or_install pkg pkg w = (Return tt, w1) /\
    cwd w1 = cwd w /\ fs w1 = fs w /\ online w1 = true /\
    is_Some (site_packages w1 !! pkg) /\
    (forall q, q <> pkg -> site_packages w1 !! q = site_packages w !! q).
Proof.
  intros Ho Hs. unfold import_or_install, try_except, import_, pip_install.
  destruct (site_packages w !! pkg) as [[e|]|] eqn:E.
  - rewrite (Hs e eq_refl), Ho, E. exists w. rewrite E. repeat split; eauto.
  - exists w. rewrite E. repeat split; eauto.
  - simpl. rewrite Ho, E. eexists. split; [reflexivity |]. simpl.
    repeat split; try assumption.
    + rewrite lookup_insert_eq. eauto.
    + intros q Hq. apply lookup_insert_ne. congruence.
Qed.

Lemma clone_step_fresh (w : world) :
  online w = true ->
  node_at w (cwd w ++ ["models"]) = None ->
  node_at w (cwd w ++ ["unica_mlsec_labs"]) = None ->
  Nb04.clone_step w
  = (Return tt,
     mkWorld (cwd w ++ ["unica_mlsec_labs"])
             (checkout (cwd w ++ ["unica_mlsec_labs"]) companion_repo (fs w))
             (site_packages w) (online w)).
Proof.
  intros Ho Hm Hu. unfold Nb04.clone_step. rewrite (unless_exists_absent _ _ w Hm).
  unfold bind. rewrite (unless_exists_absent _ _ w Hu).
  unfold git_clone. rewrite Ho, Hu. unfold os_chdir.
  rewrite node_at_app by discriminate. cbn [cwd fs site_packages online].
  rewrite checkout_root. reflexivity.
Qed.



(** ** Lab 05: bounds read off the data *)

Lemma qmin_cases (a b : Q) : qmin a b = a \/ qmin a b = b.
Proof. unfold qmin. destruct (Qle_bool a b); auto. Qed.

Lemma qmax_cases (a b : Q) : qmax a b = a \/ qmax a b = b.
Proof. unfold qmax. destruct (Qle_bool a b); auto. Qed.

Lemma foldl_qmin_elem (vs : vec) (a : Q) : foldl qmin a vs ∈ a :: vs.
Proof.
  revert a. induction vs as [|u vs IH]; intros a; simpl; [left |].
  specialize (IH (qmin a u)). apply elem_of_cons in IH as [-> | IH].
  - destruct (qmin_cases a u) as [-> | ->]; [left | right; left].
  - right. right. exact IH.
Qed.

Lemma foldl_qmax_elem (vs : vec) (a : Q) : foldl qmax a vs ∈ a :: vs.
Proof.
  revert a. induction vs as [|u vs IH]; intros a; simpl; [left |].
  specialize (IH (qmax a u)). apply elem_of_cons in IH as [-> | IH].
  - destruct (qmax_cases a u) as [-> | ->]; [left | right; left].
  - right. right. exact IH.
Qed.

Lemma carray_min_inv (m : matrix) (lo : Q) :
  carray_min m = Return lo -> lo ∈ concat m /\ Forall (fun v => lo <= v) (concat m).
Proof.
  unfold carray_min. destruct (concat m) as [|v vs]; [discriminate |].
  intros H. inversion H; subst. split; [apply foldl_qmin_elem |].
  destruct (foldl_qmin_lower vs v) as [L1 L2]. constructor; assumption.
Qed.

Lemma carray_max_inv (m : matrix) (hi : Q) :
  carray_max m = Return hi -> hi ∈ concat m /\ Forall (fun v => v <= hi) (concat m).
Proof.
  unfold carray_max. destruct (concat m) as [|v vs]; [discriminate |].
  intros H. inversion H; subst. split; [apply foldl_qmax_elem |].
  destruct (foldl_qmax_upper vs v) as [L1 L2]. constructor; assumption.
Qed.

Lemma in_box_concat (lo hi : Q) (m : matrix) :
  Forall (fun x => in_box lo hi x = true) m <->
  Forall (fun v => lo <= v /\ v <= hi) (concat m).
Proof.
  rewrite Forall_concat. apply Forall_iff. intros x. apply in_box_spec.
Qed.

(** X7.  The attack space of lab 05 is the smallest box around the
    validation set: when [lb, ub = val.X.min(), val.X.max()] returns, both
    bounds are entries of [val.X], so any box that holds every validation
    point holds [[lb, ub]]; on a validation set without an entry the cell
    stops with [ValueError]. *)
Theorem attack_space_smallest_box (v : ref) (h : store) :
  (forall b, Nb05.attack_space v h = Return b ->
     exists d, h !! v = Some d /\
       Nb05.lb b ∈ concat (X d) /\ Nb05.ub b ∈ concat (X d) /\
       forall lo hi, Forall (fun x => in_box lo hi x = true) (X d) ->
                     lo <= Nb05.lb b /\ Nb05.ub b <= hi) /\
  (forall d, h !! v = Some d -> concat (X d) = [] ->
     Nb05.attack_space v h = Raise ValueError).
Proof.
  split.
  - intros b. unfold Nb05.attack_space, deref.
    destruct (h !! v) as [d|]; [| discriminate]. simpl.
    destruct (carray_min (X d)) as [|lo] eqn:Hmin; [discriminate |]. simpl.
    destruct (carray_max (X d)) as [|hi] eqn:Hmax; [discriminate |]. simpl.
    intros H. inversion H; subst. simpl.
    apply carray_min_inv in Hmin as [Lin _]. apply carray_max_inv in Hmax as [Hin _].
    exists d. split; [reflexivity |]. split; [exact Lin |]. split; [exact Hin |].
    intros lo' hi' Hbox. apply in_box_concat in Hbox. rewrite Forall_forall in Hbox.
    split; [apply (Hbox lo Lin) | apply (Hbox hi Hin)].
  - intros d Hd He. unfold Nb05.attack_space, deref, carray_min. rewrite Hd. simpl.
    rewrite He. reflexivity.
Qed.

Lemma attack_space_smallest_box_witness :
  (exists b, Nb05.attack_space 2%positive {[ 2%positive := validation_sample ]} = Return b /\
     exists d, ({[ 2%positive := validation_sample ]} : store) !! 2%positive = Some d /\
       Nb05.lb b ∈ concat (X d) /\ Nb05.ub b ∈ concat (X d) /\
       forall lo hi, Forall (fun x => in_box lo hi x = true) (X d) ->
                     lo <= Nb05.lb b /\ Nb05.ub b <= hi) /\
  (({[ 2%positive := {| X := [[]]; Y := [0%Z] |} ]} : store) !! 2%positive
     = Some {| X := [[]]; Y := [0%Z] |} /\
   concat (X {| X := [[]]; Y := [0%Z] |}) = [] /\
   Nb05.attack_space 2%positive {[ 2%positive := {| X := [[]]; Y := [0%Z] |} ]}
     = Raise ValueError).
Proof.
  split.
  - pose proof (attack_space_smallest_box 2%positive {[ 2%positive := validation_sample ]})
      as [P _].
    destruct (Nb05.attack_space 2%positive {[ 2%positive := validation_sample ]})
      as [e | b] eqn:Hrun.
    + exfalso. vm_compute in Hrun. discriminate Hrun.
    + exists b. split; [reflexivity |]. exact (P b eq_refl).
  - pose proof (attack_space_smallest_box 2%positive
                  {[ 2%positive := {| X := [[]]; Y := [0%Z] |} ]}) as [_ P].
    assert (H1 : ({[ 2%positive := {| X := [[]]; Y := [0%Z] |} ]} : store) !! 2%positive
                 = Some {| X := [[]]; Y := [0%Z] |}) by reflexivity.
    assert (H2 : concat (X {| X := [[]]; Y := [0%Z] |}) = []) by reflexivity.
    split; [exact H1 |]. split; [exact H2 |]. exact (P _ H1 H2).
Defined.

Lemma py_min_le_l (a b : Q) : py_min a b <= a.
Proof. unfold py_min. case_Qle a b; lra. Qed.

Lemma py_min_le_r (a b : Q) : py_min a b <= b.
Proof. unfold py_min. case_Qle a b; lra. Qed.

Lemma py_max_ge_l (a b : Q) : a <= py_max a b.
Proof. unfold py_max. case_Qle b a; lra. Qed.

Lemma py_max_ge_r (a b : Q) : b <= py_max a b.
Proof. unfold py_max. case_Qle b a; lra. Qed.

Lemma py_max_cases (a b : Q) : py_max a b = a \/ py_max a b = b.
Proof. unfold py_max. destruct (Qle_bool b a); auto. Qed.

Lemma ds_append_rect (n : nat) (a b : CDataset) :
  rect n (X a) -> rect n (X b) ->
  ds_append a b = Return {| X := X a ++ X b; Y := Y a ++ Y b |}.
Proof.
  intros Ha Hb. unfold ds_append.
  destruct (X a) as [|ra ?]; [reflexivity |]. destruct (X b) as [|rb ?]; [reflexivity |].
  apply Forall_cons in Ha as [Ha _]. apply Forall_cons in Hb as [Hb _].
  rewrite Ha, Hb, Nat.eqb_refl. reflexivity.
Qed.

Lemma all_within_weaken (lo hi lo' hi' : Q) (m : matrix) :
  lo' <= lo -> hi <= hi' ->
  Forall (fun v => lo <= v /\ v <= hi) (concat m) -> all_within lo' hi' m = true.
Proof.
  intros Hlo Hhi H. apply all_within_spec, in_box_concat.
  eapply Forall_impl; [exact H |]. cbv beta. intros v [? ?]. split; lra.
Qed.

(** X8.  The limits of the decision-region plot of lab 05,
    [min(pois_tr.X.min(), ts.X.min())] and [max(pois_tr.X.max(), ts.X.max())]
    with [pois_tr = tr.append(pois_ds)], are computed whenever the training
    and the test set have a sample, and every feature of every training,
    poisoning and test point lies between them. *)
Theorem plot_limits_cover (n : nat) (tr pois_ds ts : CDataset) :
  (0 < n)%nat -> X tr <> [] -> X ts <> [] ->
  rect n (X tr) -> rect n (X pois_ds) -> rect n (X ts) ->
  exists lo hi, Nb05Plot.plot_limits tr pois_ds ts = Return (lo, hi) /\
    lo <= hi /\
    all_within lo hi (X tr) = true /\
    all_within lo hi (X pois_ds) = true /\
    all_within lo hi (X ts) = true.
Proof.
  intros Hn Htr Hts Rtr Rp Rts.
  assert (Rall : rect n (X tr ++ X pois_ds)) by (apply Forall_app; split; assumption).
  assert (Nall : X tr ++ X pois_ds <> []) by (destruct (X tr); [congruence | discriminate]).
  destruct (carray_min_max _ (rect_concat_nonempty n _ Hn Nall Rall))
    as (a & c & Ha & Hc & Hac & Hall).
  destruct (carray_min_max _ (rect_concat_nonempty n _ Hn Hts Rts))
    as (b & d & Hb & Hd & Hbd & Hts').
  rewrite concat_app, Forall_app in Hall. destruct Hall as [Htr' Hp'].
  exists (py_min a b), (py_max c d).
  unfold Nb05Plot.plot_limits. rewrite (ds_append_rect n) by assumption.
  cbn [rbind X]. rewrite Ha, Hb, Hc, Hd. cbn [rbind].
  pose proof (py_min_le_l a b). pose proof (py_min_le_r a b).
  pose proof (py_max_ge_l c d). pose proof (py_max_ge_r c d).
  split; [reflexivity |]. split; [lra |].
  split; [| split];
    [apply (all_within_weaken a c) | apply (all_within_weaken a c)
     | apply (all_within_weaken b d)]; assumption || lra.
Qed.

Lemma plot_limits_cover_witness :
  (0 < 2)%nat /\ X validation_sample <> [] /\ X validation_sample <> [] /\
  rect 2 (X validation_sample) /\
  rect 2 (X {| X := [[3 # 2; -1]]; Y := [1%Z] |}) /\
  rect 2 (X validation_sample) /\
  exists lo hi,
    Nb05Plot.plot_limits validation_sample {| X := [[3 # 2; -1]]; Y := [1%Z] |}
                         validation_sample = Return (lo, hi) /\
    lo <= hi /\
    all_within lo hi (X validation_sample) = true /\
    all_within lo hi (X {| X := [[3 # 2; -1]]; Y := [1%Z] |}) = true /\
    all_within lo hi (X validation_sample) = true.
Proof.
  assert (H0 : (0 < 2)%nat) by lia.
  assert (H1 : X validation_sample <> []) by discriminate.
  assert (H2 : rect 2 (X validation_sample)) by repeat constructor.
  assert (H3 : rect 2 (X {| X := [[3 # 2; -1]]; Y := [1%Z] |})) by repeat constructor.
  repeat (split; [assumption |]).
  exact (plot_limits_cover 2 validation_sample _ validation_sample H0 H1 H1 H2 H3 H2).
Defined.

(** ** Lab 06: the figures *)

(** X9.  The colour scale of the explanation figure of lab 06:
    [th = max(abs(attr.min()), abs(attr.max()))] is not negative, every
    attribution lies in [[-th, th]], and [th] is the absolute value of one of
    them, so the scale is symmetric and as tight as a symmetric one can be. *)
Theorem threshold_bounds_attributions (attr : matrix) :
  concat attr <> [] ->
  exists th, Nb06Fig.threshold attr = Return th /\
    0 <= th /\
    Forall (fun v => - th <= v /\ v <= th) (concat attr) /\
    Exists (fun v => Qabs v = th) (concat attr).
Proof.
  intros Hne.
  destruct (carray_min_max attr Hne) as (lo & hi & Hmin & Hmax & Hle & Hall).
  exists (py_max (Qabs lo) (Qabs hi)).
  unfold Nb06Fig.threshold. rewrite Hmin, Hmax. cbn [rbind].
  pose proof (py_max_ge_l (Qabs lo) (Qabs hi)) as G1.
  pose proof (py_max_ge_r (Qabs lo) (Qabs hi)) as G2.
  split; [reflexivity |]. split; [pose proof (Qabs_nonneg lo); lra |].
  split.
  - eapply Forall_impl; [exact Hall |]. cbv beta. intros v [L U].
    pose proof (Qle_Qabs hi). pose proof (Qle_Qabs (- lo)).
    pose proof (Qabs_opp lo). split; lra.
  - apply carray_min_inv in Hmin as [Lin _]. apply carray_max_inv in Hmax as [Hin _].
    apply Exists_exists.
    destruct (py_max_cases (Qabs lo) (Qabs hi)) as [-> | ->]; eauto.
Qed.

Lemma threshold_bounds_attributions_witness :
  concat [[- (3 # 4); 1 # 2]; [0; 1 # 4]] <> [] /\
  exists th, Nb06Fig.threshold [[- (3 # 4); 1 # 2]; [0; 1 # 4]] = Return th /\
    0 <= th /\
    Forall (fun v => - th <= v /\ v <= th) (concat [[- (3 # 4); 1 # 2]; [0; 1 # 4]]) /\
    Exists (fun v => Qabs v = th) (concat [[- (3 # 4); 1 # 2]; [0; 1 # 4]]).
Proof.
  assert (H : concat [[- (3 # 4); 1 # 2]; [0; 1 # 4]] <> []) by discriminate.
  split; [exact H |]. exact (threshold_bounds_attributions _ H).
Defined.

Lemma map_add_seq (b s n : nat) : map (fun c => (b + c)%nat) (seq s n) = seq (b + s) n.
Proof.
  revert s. induction n as [|n IH]; intros s; simpl; [reflexivity |].
  rewrite IH. do 2 f_equal. lia.
Qed.

Lemma imap_index {A : Type} (f : nat -> nat) (l : list A) :
  imap (fun j _ => f j) l = map f (seq 0 (length l)).
Proof.
  revert f. induction l as [|a l IH]; intros f; [reflexivity |].
  rewrite imap_cons. simpl. f_equal.
  rewrite <- seq_shift, map_map. apply (IH (f ∘ S)).
Qed.

(** Blocks of [W] consecutive positions, one after the other. *)
Lemma seq_blocks (W s n : nat) :
  seq (s * W + 1) W ++ seq (S s * W + 1) (n * W) = seq (s * W + 1) (S n * W).
Proof.
  simpl. rewrite (seq_app W (n * W)). do 2 f_equal. lia.
Qed.

Lemma concat_map_blocks (W : nat) (f : nat -> list nat) (n : nat) :
  (forall i, f i = seq (i * W + 1) W) ->
  forall s, concat (map f (seq s n)) = seq (s * W + 1) (n * W).
Proof.
  intros Hf. induction n as [|n IH]; intros s; [reflexivity |].
  cbn [seq map concat]. rewrite Hf, IH. apply seq_blocks.
Qed.

Lemma concat_imap_blocks {A : Type} (W : nat) (g : nat -> A -> list nat) (rows : list A) :
  (forall i r, r ∈ rows -> g i r = seq (i * W + 1) W) ->
  forall s, concat (imap (fun i => g (s + i)%nat) rows) = seq (s * W + 1) (length rows * W).
Proof.
  induction rows as [|r rows IH]; intros Hg s; [reflexivity |].
  rewrite imap_cons. cbn [concat length].
  rewrite Nat.add_0_r, Hg by left.
  rewrite (imap_ext _ (fun i => g (S s + i)%nat)).
  - rewrite IH by (intros; apply Hg; right; assumption). apply seq_blocks.
  - intros i x _. simpl. f_equal. lia.
Qed.

Lemma block_seq (b n : nat) :
  (b + 1)%nat :: map (fun c => (b + 2 + c)%nat) (seq 0 n) = seq (b + 1) (n + 1).
Proof.
  rewrite map_add_seq, Nat.add_comm with (n := n). simpl. do 2 f_equal. lia.
Qed.

(** X10.  The explanation figure of lab 06 is a grid of one row per
    explainer and [num_classes + 1] columns; with the classes numbered
    [0 .. num_classes - 1] the calls to [fig.subplot] visit the positions
    [1 .. n * (num_classes + 1)] in order, each once. *)
Theorem explanation_grid_filled (n K : nat) :
  Nb06Fig.explanation_slots n K (seq 0 K) = seq 1 (n * (K + 1)).
Proof.
  unfold Nb06Fig.explanation_slots.
  apply (concat_map_blocks (K + 1) _ n). intros i. apply block_seq.
Qed.

Lemma length_last_slice {A : Type} (n : nat) (l : list A) :
  (0 < n <= length l)%nat -> length (Nb06Fig.last_slice n l) = n.
Proof.
  intros H. unfold Nb06Fig.last_slice.
  destruct (Nat.eqb_spec n 0); [lia |]. rewrite length_drop. lia.
Qed.

Lemma length_tr_top {A : Type} (n : nat) (l : list A) :
  (0 < n <= length l)%nat -> length (Nb06Fig.tr_top n l) = (n * 2)%nat.
Proof.
  intros H. unfold Nb06Fig.tr_top.
  rewrite length_app, length_take, length_last_slice by exact H. lia.
Qed.

(** X11.  The prototype figure of lab 06 with two classes: for every test
    sample the image and the [2 * n_xc] prototypes of [tr_top] take the
    positions of one row of [n_xc * 2 + 1] columns, so the calls to
    [fig.subplot] visit [1 .. len(ts_list) * (n_xc * 2 + 1)] in order, each
    once. *)
Theorem prototype_grid_filled (n_xc : nat) (rows : list (list nat)) :
  (0 < n_xc)%nat ->
  Forall (fun row => (n_xc <= length row)%nat) rows ->
  Nb06Fig.prototype_slots n_xc 2 rows = seq 1 (length rows * (n_xc * 2 + 1)).
Proof.
  intros Hn Hrows. unfold Nb06Fig.prototype_slots.
  refine (concat_imap_blocks (n_xc * 2 + 1)
           (fun i row => (i * (n_xc * 2 + 1) + 1)%nat
                         :: imap (fun j _ => (i * (n_xc * 2 + 1) + 2 + j)%nat)
                                 (reverse (Nb06Fig.tr_top n_xc row))) rows _ 0%nat).
  intros i r Hr. rewrite Forall_forall in Hrows.
  rewrite imap_index, length_reverse, length_tr_top by (split; [lia | apply Hrows, Hr]).
  apply block_seq.
Qed.

Lemma prototype_grid_filled_witness :
  (0 < 1)%nat /\
  Forall (fun row => (1 <= length row)%nat) [[4; 7; 2]; [7; 2; 4]]%nat /\
  Nb06Fig.prototype_slots 1 2 [[4; 7; 2]; [7; 2; 4]]%nat
  = seq 1 (length [[4; 7; 2]; [7; 2; 4]]%nat * (1 * 2 + 1)).
Proof.
  assert (H0 : (0 < 1)%nat) by lia.
  assert (H1 : Forall (fun row => (1 <= length row)%nat) [[4; 7; 2]; [7; 2; 4]]%nat).
  { repeat constructor. }
  split; [exact H0 |]. split; [exact H1 |].
  exact (prototype_grid_filled 1 _ H0 H1).
Defined.

(** ** Order of the prototypes *)

Lemma StronglySorted_skip {A : Type} (R : A -> A -> Prop) (l1 l2 l3 : list A) :
  StronglySorted R (l1 ++ l2 ++ l3) -> StronglySorted R (l1 ++ l3).
Proof.
  intros H. apply StronglySorted_app in H as (H & H1 & H23).
  apply StronglySorted_app in H23 as (_ & _ & H3).
  apply StronglySorted_app. split; [| split; assumption].
  intros a b Ha Hb. apply H; [exact Ha |]. apply elem_of_app. right. exact Hb.
Qed.

Lemma StronglySorted_reverse {A : Type} (R : A -> A -> Prop) (l : list A) :
  StronglySorted R l -> StronglySorted (fun a b => R b a) (reverse l).
Proof.
  induction 1 as [|a l Hl IH Ha]; [constructor |].
  rewrite reverse_cons. apply StronglySorted_app.
  split; [| split; [exact IH | repeat constructor]].
  intros x y Hx Hy. apply list_elem_of_singleton in Hy as ->.
  rewrite Forall_forall in Ha. apply Ha. apply elem_of_reverse. exact Hx.
Qed.

(** X12.  The comment [# sort highest first] of lab 06 holds: on a row of
    indices in order of increasing influence, with at least [2 * n_xc]
    entries, [tr_top[::-1]] lists its prototypes by decreasing influence. *)
Theorem prototypes_highest_first (infl : nat -> Q) (n_xc : nat) (row : list nat) :
  ascending infl row ->
  (2 * n_xc <= length row)%nat ->
  descending infl (reverse (Nb06Fig.tr_top n_xc row)).
Proof.
  unfold ascending, descending. intros Hs Hlen.
  apply (StronglySorted_reverse (fun a b => infl a <= infl b)).
  unfold Nb06Fig.tr_top, Nb06Fig.last_slice.
  destruct (Nat.eqb_spec n_xc 0) as [-> | Hn]; [exact Hs |].
  apply (StronglySorted_skip _ _ (take (length row - n_xc - n_xc) (drop n_xc row))).
  assert (E : drop (length row - n_xc) row
              = drop (length row - n_xc - n_xc) (drop n_xc row)).
  { rewrite drop_drop. f_equal. lia. }
  rewrite E, take_drop, take_drop. exact Hs.
Qed.

Lemma prototypes_highest_first_witness :
  ascending (fun i => inject_Z (Z.of_nat i)) [0; 1; 2; 3; 4]%nat /\
  (2 * 2 <= length [0; 1; 2; 3; 4]%nat)%nat /\
  descending (fun i => inject_Z (Z.of_nat i))
             (reverse (Nb06Fig.tr_top 2 [0; 1; 2; 3; 4]%nat)).
Proof.
  assert (H1 : ascending (fun i => inject_Z (Z.of_nat i)) [0; 1; 2; 3; 4]%nat).
  { unfold ascending. repeat constructor; vm_compute; discriminate. }
  assert (H2 : (2 * 2 <= length [0; 1; 2; 3; 4]%nat)%nat) by (simpl; lia).
  split; [exact H1 |]. split; [exact H2 |].
  exact (prototypes_highest_first _ 2 _ H1 H2).
Defined.

(** ** Lab 06: collecting the attributions *)

Lemma assign_row_fits (c width : nat) (v : vec) (attr : matrix) :
  (c < length attr)%nat -> length v = width ->
  Nb06Fig.assign_row c v width attr = Return (<[c := v]> attr).
Proof.
  intros Hc Hv. unfold Nb06Fig.assign_row.
  rewrite (proj2 (Nat.ltb_lt _ _) Hc), (proj2 (Nat.eqb_eq _ _) Hv). reflexivity.
Qed.

Lemma collect_from (explain : nat -> vec) (width n : nat) :
  forall (s : nat) (attr : matrix),
    length attr = (s + n)%nat ->
    (forall c, (c < s + n)%nat -> length (explain c) = width) ->
    Nb06Fig.collect explain width (seq s n) attr
    = Return (take s attr ++ map explain (seq s n)).
Proof.
  induction n as [|n IH]; intros s attr Hlen Hex; cbn [seq Nb06Fig.collect map].
  - rewrite app_nil_r, take_ge by lia. reflexivity.
  - rewrite assign_row_fits by (try apply Hex; lia).
    rewrite IH.
    + f_equal. rewrite (take_S_r _ _ (explain s)).
      * rewrite take_insert_ge by lia. rewrite <- app_assoc. reflexivity.
      * apply list_lookup_insert_eq. lia.
    + rewrite length_insert. lia.
    + intros c Hc. apply Hex. lia.
Qed.

(** X13.  The loop of lab 06 that collects the attributions overwrites
    every row of the array that [CArray.empty] allocated: with one
    explanation of [x.size] entries per class [0 .. num_classes - 1] the
    result is the explanations in class order, whatever the array held. *)
Theorem attributions_overwrite_buffer
    (explain : nat -> vec) (width K : nat) (garbage : matrix) :
  length garbage = K ->
  (forall c, (c < K)%nat -> length (explain c) = width) ->
  Nb06Fig.collect explain width (seq 0 K) garbage = Return (map explain (seq 0 K)).
Proof.
  intros Hlen Hex. rewrite (collect_from explain width K 0 garbage); [reflexivity | lia |].
  intros c Hc. apply Hex. lia.
Qed.

Lemma attributions_overwrite_buffer_witness :
  length [[7; 7]; [8; 8]; [9; 9]] = 3%nat /\
  (forall c, (c < 3)%nat -> length ((fun c => [inject_Z (Z.of_nat c); 1]) c) = 2%nat) /\
  Nb06Fig.collect (fun c => [inject_Z (Z.of_nat c); 1]) 2 (seq 0 3) [[7; 7]; [8; 8]; [9; 9]]
  = Return (map (fun c => [inject_Z (Z.of_nat c); 1]) (seq 0 3)).
Proof.
  assert (H1 : length [[7; 7]; [8; 8]; [9; 9]] = 3%nat) by reflexivity.
  assert (H2 : forall c, (c < 3)%nat ->
                 length ((fun c => [inject_Z (Z.of_nat c); 1]) c) = 2%nat)
    by (intros; reflexivity).
  split; [exact H1 |]. split; [exact H2 |].
  exact (attributions_overwrite_buffer _ 2 3 _ H1 H2).
Defined.

(** X14.  A class label that is not a row of the attribution array stops
    the loop with [IndexError]: the rows assigned before it do not change
    the number of rows. *)
Theorem attributions_label_out_of_range
    (explain : nat -> vec) (width : nat) (classes : list nat) (attr : matrix) :
  (forall c, length (explain c) = width) ->
  Exists (fun c => (length attr <= c)%nat) classes ->
  Nb06Fig.collect explain width classes attr = Raise (OtherError "IndexError").
Proof.
  intros Hex Hbad. revert attr Hbad.
  induction classes as [|c cs IH]; intros attr Hbad; [inversion Hbad |].
  cbn [Nb06Fig.collect].
  destruct (Nat.lt_ge_cases c (length attr)) as [Hc | Hc].
  - rewrite assign_row_fits by auto. apply IH. rewrite length_insert.
    apply Exists_cons in Hbad as [Hbad | Hbad]; [lia | exact Hbad].
  - unfold Nb06Fig.assign_row. rewrite (proj2 (Nat.ltb_ge _ _) Hc). reflexivity.
Qed.

Lemma attributions_label_out_of_range_witness :
  (forall c : nat, length ((fun _ : nat => [1; 2]) c) = 2%nat) /\
  Exists (fun c => (length ([[0; 0]; [0; 0]]%Q : matrix) <= c)%nat) [1; 5; 0]%nat /\
  Nb06Fig.collect (fun _ => [1; 2]) 2 [1; 5; 0]%nat [[0; 0]; [0; 0]]
  = Raise (OtherError "IndexError").
Proof.
  assert (H1 : forall c : nat, length ((fun _ : nat => [1; 2]) c) = 2%nat)
    by (intros; reflexivity).
  assert (H2 : Exists (fun c => (length ([[0; 0]; [0; 0]]%Q : matrix) <= c)%nat) [1; 5; 0]%nat).
  { right. left. simpl. lia. }
  split; [exact H1 |]. split; [exact H2 |].
  exact (attributions_label_out_of_range _ 2 _ _ H1 H2).
Defined.
